(** * Trigger detection and dispatch of the LiveKit voice agent ([agent.py])

    A shallow embedding of [agent.py]: the phrase matcher
    [_extract_trigger_events], the notification coroutine
    [_send_event_to_chain], the outbound call coroutine
    [_dispatch_outbound_call], the two ingestion handlers
    [_handle_text_stream] and [_on_transcript], and the session life cycle of
    [entrypoint].

    Python strings are sequences of Unicode code points: [str] is [list N].
    The Unicode character database used by [str.lower] and [str.strip] is not
    part of the repository; it is a type class the development is parametric
    in, so that every theorem holds for whatever database the interpreter
    ships. *)

From Stdlib Require Import ZArith NArith QArith Ascii String List Lia.
From stdpp Require Import base decidable option list strings gmap sets pretty.

Set Default Proof Using "Type".

(** ** Python strings *)

Abbreviation str := (list N).

(** A string literal of the source, as code points. *)
Definition py (s : string) : str :=
  (λ a : ascii, N_of_ascii a) <$> list_ascii_of_string s.
Global Arguments py : simpl never.

(** The tables of the Unicode character database that [str.lower] and
    [str.strip] consult. *)
Class UnicodeData := {
  (** full lower-case mapping of one code point (one or more code points) *)
  ToLowerFull : N → str;
  (** the derived properties Cased and Case_Ignorable *)
  IsCased : N → bool;
  IsCaseIgnorable : N → bool;
  (** the characters [str.isspace] accepts, which [str.strip] removes *)
  IsWhitespace : N → bool;
}.

(** The Basic Latin block (U+0000..U+007F) of the database.  Beyond that
    block the entries are placeholders; the instance is meant for texts
    written in Basic Latin. *)
Definition basic_latin_lower (c : N) : str :=
  if bool_decide (65 ≤ c ≤ 90)%N then [(c + 32)%N] else [c].

Definition basic_latin_cased (c : N) : bool :=
  bool_decide (65 ≤ c ≤ 90)%N || bool_decide (97 ≤ c ≤ 122)%N.

Definition basic_latin_case_ignorable (c : N) : bool :=
  bool_decide (c ∈ [39; 46; 58; 94; 96]%N).

Definition basic_latin_space (c : N) : bool :=
  bool_decide (9 ≤ c ≤ 13)%N || bool_decide (28 ≤ c ≤ 32)%N.

Definition basic_latin : UnicodeData := {|
  ToLowerFull := basic_latin_lower;
  IsCased := basic_latin_cased;
  IsCaseIgnorable := basic_latin_case_ignorable;
  IsWhitespace := basic_latin_space;
|}.

Section str_methods.
Context `{UnicodeData}.

(** *** [str.lower]

    Every code point is replaced by its full lower-case mapping, except
    GREEK CAPITAL LETTER SIGMA (U+03A3), which becomes the final sigma
    U+03C2 when it ends a word and U+03C3 otherwise.  The decision looks at
    the characters before (nearest first) and after the sigma. *)

Fixpoint skip_case_ignorable (s : str) : str :=
  match s with
  | c :: s' => if IsCaseIgnorable c then skip_case_ignorable s' else s
  | [] => []
  end.

Definition final_sigma (before_rev after : str) : bool :=
  match skip_case_ignorable before_rev with
  | c :: _ =>
      IsCased c &&
      match skip_case_ignorable after with
      | c' :: _ => negb (IsCased c')
      | [] => true
      end
  | [] => false
  end.

Definition handle_capital_sigma (before_rev after : str) : N :=
  if final_sigma before_rev after then 0x3C2%N else 0x3C3%N.

Definition lower_ucs4 (before_rev after : str) (c : N) : str :=
  if (c =? 0x3A3)%N then [handle_capital_sigma before_rev after]
  else ToLowerFull c.

Fixpoint do_lower (before_rev s : str) : str :=
  match s with
  | c :: after => lower_ucs4 before_rev after c ++ do_lower (c :: before_rev) after
  | [] => []
  end.

Definition str_lower (s : str) : str := do_lower [] s.

(** *** [str.strip] *)

Fixpoint str_lstrip (s : str) : str :=
  match s with
  | c :: s' => if IsWhitespace c then str_lstrip s' else s
  | [] => []
  end.

Definition str_rstrip (s : str) : str := reverse (str_lstrip (reverse s)).

Definition str_strip (s : str) : str := str_rstrip (str_lstrip s).
End str_methods.

(** *** [needle in hay] on strings *)

Fixpoint str_startswith (s prefix : str) {struct prefix} : bool :=
  match prefix, s with
  | [], _ => true
  | p :: prefix', c :: s' => bool_decide (p = c) && str_startswith s' prefix'
  | _ :: _, [] => false
  end.

Fixpoint str_contains (needle hay : str) : bool :=
  str_startswith hay needle ||
  match hay with
  | _ :: hay' => str_contains needle hay'
  | [] => false
  end.

(** [s.rstrip(chars)] for a one-character [chars]. *)
Fixpoint str_rstrip_char (ch : N) (s : str) : str :=
  match s with
  | c :: s' =>
      match str_rstrip_char ch s' with
      | [] => if bool_decide (c = ch) then [] else [c]
      | r => c :: r
      end
  | [] => []
  end.

(** Truthiness of a string: [bool(s)]. *)
Definition truthy (s : str) : bool :=
  match s with [] => false | _ :: _ => true end.

(** ** The phrase matcher *)

(** The items of the dict [TRIGGER_PHRASES], in insertion order. *)
Definition TRIGGER_PHRASES : list (str * str) := [
  (py "weapon drawn", py "weapon_drawn");
  (py "weapon out", py "weapon_drawn");
  (py "gun drawn", py "weapon_drawn");
  (py "shots fired", py "shots_fired");
  (py "man down", py "man_down");
  (py "officer down", py "officer_down");
  (py "suspect down", py "suspect_down");
  (py "camera blocked", py "camera_blocked");
  (py "camera obscured", py "camera_blocked")
].

Definition shots_fired : str := py "shots_fired".

Definition _extract_trigger_events `{UnicodeData} (text : str) : gset str :=
  let lowered := str_lower text in
  list_to_set
    (omap (λ '(phrase, event),
             if str_contains phrase lowered then Some event else None)
          TRIGGER_PHRASES).

Global Arguments _extract_trigger_events : simpl never.

(** [needle] occurs in [hay] as a contiguous run of characters. *)
Definition occurs_in (needle hay : str) : Prop :=
  ∃ pre post, hay = pre ++ needle ++ post.


(** ** Effects

    The code talks to the outside through logging, the text-stream reader,
    the HTTP sink, the LiveKit API and the asyncio event loop.  A coroutine is
    modelled by the list of the actions it performs, in program order, and by
    how it ends: with a value or with an exception.

    Exceptions are instances of [Exception] (what [except Exception]
    catches); the cancellation of a task, which asyncio signals with a
    [BaseException], is not modelled. *)

Record exn := Exn { exc_class : string; exc_message : string }.

Definition RuntimeError (msg : string) : exn := Exn "RuntimeError" msg.

Inductive result (A : Type) : Type :=
  | Return (a : A)
  | Raise (e : exn).
Arguments Return {A} a.
Arguments Raise {A} e.

Inductive level := INFO | WARNING.

(** Arguments of a log record. *)
Inductive pyval :=
  | VNone
  | VStr (s : str)
  | VInt (z : Z)
  | VExc (e : exn).

Definition of_option {A} (f : A → pyval) (o : option A) : pyval :=
  match o with Some a => f a | None => VNone end.

Record TextStreamInfo := {
  info_topic : str;
  info_id : option str;          (* [getattr(info, "id", None)] *)
  info_stream_id : option str;   (* [getattr(info, "stream_id", None)] *)
  info_size : option Z;          (* [getattr(info, "size", None)] *)
}.

Record TextStreamReader := {
  reader_info : TextStreamInfo;
  (** the outcome of [await reader.read_all()] *)
  reader_read_all : result str;
}.

(** The event of [user_input_transcribed]; [None] in [ev_is_final] is an
    event without that attribute. *)
Record UserInputTranscribed := {
  ev_transcript : option str;
  ev_is_final : option bool;
}.

Record CreateSIPParticipantRequest := {
  sip_trunk_id : str;
  sip_call_to : str;
  room_name : str;
  participant_identity : str;
  participant_name : str;
  krisp_enabled : bool;
  wait_until_answered : bool;
}.

(** The coroutines of the module that are awaited or made into tasks. *)
Inductive coro :=
  | send_event_to_chain (event transcript room : str)
  | dispatch_outbound_call (transcript : str) (room : option str)
  | handle_text_stream (reader : TextStreamReader) (identity : str).

Inductive action :=
  | Log (lvl : level) (fmt : string) (args : list pyval)
  | ReadAll (info : TextStreamInfo)           (* [await reader.read_all()] *)
  | Classify (text : str)                     (* a call of [_extract_trigger_events] *)
  | Await (c : coro)                          (* [await c]; the actions of [c] follow *)
  | CreateTask (c : coro)                     (* [asyncio.create_task(c)] *)
  | HttpPost (url : str) (payload : list (string * str))
                                              (* [_post_event_sync] in a worker thread *)
  | NewLiveKitAPI                             (* [lk_api.LiveKitAPI()] *)
  | CreateSipParticipant (request : CreateSIPParticipantRequest)
  | CloseLiveKitAPI.                          (* [livekit_api.aclose()] *)

(** What the outside answers: the process environment, the clock, and the
    outcome of each request to a collaborator. *)
Record World := {
  getenv : string → option str;
  time_time : Q;
  post_event_sync : str → list (string * str) → result (Z * str);
  new_LiveKitAPI : result unit;
  create_sip_participant : CreateSIPParticipantRequest → result str;
  aclose : result unit;
}.

(** *** The monad of actions and exceptions *)

Definition M (A : Type) : Type := (list action * result A)%type.

Global Instance M_ret : MRet M := λ A a, ([], Return a).

Global Instance M_bind : MBind M := λ A B f m,
  match m with
  | (tr, Return a) => let '(tr', r) := f a in (tr ++ tr', r)
  | (tr, Raise e) => (tr, Raise e)
  end.

Definition emit (a : action) : M unit := ([a], Return tt).

Definition raise {A} (e : exn) : M A := ([], Raise e).

(** The outcome of a request, as the value or the exception of an [await]. *)
Definition outcome {A} (r : result A) : M A := ([], r).

(** [try: body / except Exception as exc: handler exc] *)
Definition try_except {A} (body : M A) (handler : exn → M A) : M A :=
  match body with
  | (tr, Raise e) => let '(tr', r) := handler e in (tr ++ tr', r)
  | (tr, Return a) => (tr, Return a)
  end.

(** [try: body / finally: final]: [final] runs either way, and an exception
    of [final] replaces the outcome of [body]. *)
Definition try_finally {A} (body : M A) (final : M unit) : M A :=
  let '(tr, r) := body in
  match final with
  | (tr', Return _) => (tr ++ tr', r)
  | (tr', Raise e') => (tr ++ tr', Raise e')
  end.

(** [for x in xs: body x] *)
Fixpoint for_each {A} (xs : list A) (body : A → M unit) : M unit :=
  match xs with
  | x :: xs' => body x;; for_each xs' body
  | [] => mret tt
  end.

(** [int(x)] for a float [x]: truncation towards zero. *)
Definition int_of_float (x : Q) : Z := Z.quot (Qnum x) (Zpos (Qden x)).

(** [str(z)] for an int [z]. *)
Definition str_of_int (z : Z) : str := py (pretty z).

(** ** Module constants *)

Definition OUTBOUND_PHONE_NUMBER : str := py "+14083103927".

Definition EVENTS_API_BASE_URL (w : World) : str :=
  default (py "https://clearance-phi.vercel.app") (getenv w "CLEARANCE_API_BASE_URL").

Definition EVENTS_API_PATH : str := py "/api/events".

(** ** The notification coroutine *)

(** The locals [url] and [payload] of [_send_event_to_chain]. *)
Definition events_url (w : World) : str :=
  str_rstrip_char 47 (EVENTS_API_BASE_URL w) ++ EVENTS_API_PATH.

Definition event_payload (event transcript room : str) : list (string * str) := [
  ("event", event);
  ("cameraDetails", room);
  ("roomName", room);
  ("transcript", transcript);
  ("source", py "livekit-voice-agent")
].

Definition _send_event_to_chain (w : World) (event transcript room : str) : M unit :=
  if negb (truthy (EVENTS_API_BASE_URL w)) then
    emit (Log WARNING "Missing CLEARANCE_API_BASE_URL; skipping event publish." [])
  else
    let url := events_url w in
    let payload := event_payload event transcript room in
    try_except
      (emit (HttpPost url payload);;
       '(status, body) ← outcome (post_event_sync w url payload);
       if (status >=? 300)%Z then
         emit (Log WARNING "Event publish failed (%s): %s" [VInt status; VStr body])
       else
         emit (Log INFO "Event published (%s): %s" [VInt status; VStr body]))
      (λ exc, emit (Log WARNING "Event publish error: %s" [VExc exc])).

Global Arguments _send_event_to_chain : simpl never.

(** ** The outbound call coroutine *)

Definition missing_trunk_id : exn :=
  RuntimeError "Missing LIVEKIT_SIP_TRUNK_ID for outbound SIP calls.".

(** [f"sip-alert-{int(time.time())}"] *)
Definition new_participant_identity (w : World) : str :=
  py "sip-alert-" ++ str_of_int (int_of_float (time_time w)).

(** [x or y] on optional strings: [x] unless it is [None] or empty. *)
Definition or_else (x : option str) (y : str) : str :=
  match x with
  | Some s => if truthy s then s else y
  | None => y
  end.

Definition trunk_id_configured (w : World) : bool :=
  match getenv w "LIVEKIT_SIP_TRUNK_ID" with
  | Some trunk_id => truthy trunk_id
  | None => false
  end.

Definition _dispatch_outbound_call (w : World) (transcript : str)
    (room : option str) : M (list (string * str)) :=
  match getenv w "LIVEKIT_SIP_TRUNK_ID" with
  | Some trunk_id =>
      if truthy trunk_id then
        let target_room :=
          or_else room (default (py "sip-alerts") (getenv w "LIVEKIT_SIP_ROOM_NAME")) in
        let identity := new_participant_identity w in
        let request := {|
          sip_trunk_id := trunk_id;
          sip_call_to := OUTBOUND_PHONE_NUMBER;
          room_name := target_room;
          participant_identity := identity;
          participant_name := py "Shots Fired Alert";
          krisp_enabled := true;
          wait_until_answered := false;
        |} in
        emit NewLiveKitAPI;;
        outcome (new_LiveKitAPI w);;
        participant ←
          try_finally
            (emit (CreateSipParticipant request);;
             outcome (create_sip_participant w request))
            (emit CloseLiveKitAPI;; outcome (aclose w));
        emit (Log WARNING
                "Outbound call dispatched to %s (room=%s, participant=%s) for: %s"
                [VStr OUTBOUND_PHONE_NUMBER; VStr target_room; VStr identity;
                 VStr transcript]);;
        mret [("participant", participant)]
      else raise missing_trunk_id
  | None => raise missing_trunk_id
  end.

(** ** The handlers of [entrypoint]

    A [for] over a Python set visits its elements in an order the language
    leaves open; [elements] is one such order, and no property below depends
    on it. *)

Section handlers.
Context `{UnicodeData}.
(** [ctx.room.name] *)
Variable room : str.

Definition _handle_text_stream (w : World) (reader : TextStreamReader)
    (identity : str) : M unit :=
  let info := reader_info reader in
  let stream_id :=
    match info_id info with
    | Some i => if truthy i then Some i else info_stream_id info
    | None => info_stream_id info
    end in
  let size := info_size info in
  emit (Log INFO "Text stream received from %s (topic=%s, id=%s, size=%s)"
          [VStr identity; VStr (info_topic info); of_option VStr stream_id;
           of_option VInt size]);;
  read ← try_except
    (emit (ReadAll info);;
     text ← outcome (reader_read_all reader);
     mret (Some text))
    (λ exc,
       emit (Log WARNING "Text stream read failed: %s" [VExc exc]);;
       mret None);
  match read with
  | None => mret tt
  | Some text =>
      if truthy text then
        emit (Log INFO "Text stream content: %s" [VStr text]);;
        emit (Classify text);;
        let matched_events := _extract_trigger_events text in
        (if bool_decide (matched_events ≠ ∅) then
           for_each (elements matched_events) (λ event,
             if bool_decide (event = shots_fired) then mret tt
             else emit (CreateTask (send_event_to_chain event text room)))
         else mret tt);;
        if bool_decide (shots_fired ∈ matched_events) then
          emit (Log WARNING "Audio trigger detected in text stream (room=%s): %s"
                  [VStr room; VStr text]);;
          emit (Await (send_event_to_chain shots_fired text room));;
          _send_event_to_chain w shots_fired text room;;
          emit (CreateTask (dispatch_outbound_call text (Some room)))
        else mret tt
      else mret tt
  end.

Definition _on_transcript (transcript : UserInputTranscribed) : M unit :=
  let text := str_strip (default [] (ev_transcript transcript)) in
  if negb (truthy text) then mret tt
  else
    let is_final := default false (ev_is_final transcript) in
    emit (Log INFO "Transcript%s: %s"
            [VStr (if is_final then py " (final)" else []); VStr text]);;
    if negb is_final then mret tt
    else
      emit (Classify text);;
      let matched_events := _extract_trigger_events text in
      for_each (elements matched_events) (λ event,
        emit (CreateTask (send_event_to_chain event text room))).

(** The body of a coroutine, run to its end. *)
Definition run_coro (w : World) (c : coro) : M unit :=
  match c with
  | send_event_to_chain event transcript room' =>
      _send_event_to_chain w event transcript room'
  | dispatch_outbound_call transcript room' =>
      _dispatch_outbound_call w transcript room';; mret tt
  | handle_text_stream reader identity =>
      _handle_text_stream w reader identity
  end.
End handlers.

(** *** Reading a trace *)

(** The events of the calls of [_send_event_to_chain], awaited or made into
    a task. *)
Definition notify_calls (tr : list action) : list str :=
  omap (λ a, match a with
             | Await (send_event_to_chain event _ _)
             | CreateTask (send_event_to_chain event _ _) => Some event
             | _ => None
             end) tr.

(** The calls of [_dispatch_outbound_call], awaited or made into a task. *)
Definition call_attempts (tr : list action) : list coro :=
  omap (λ a, match a with
             | Await (dispatch_outbound_call t r)
             | CreateTask (dispatch_outbound_call t r) => Some (dispatch_outbound_call t r)
             | _ => None
             end) tr.

(** The tasks a coroutine created. *)
Definition created_tasks (tr : list action) : list coro :=
  omap (λ a, match a with CreateTask c => Some c | _ => None end) tr.

Definition classifications (tr : list action) : list str :=
  omap (λ a, match a with Classify text => Some text | _ => None end) tr.

Definition is_log (a : action) : bool :=
  match a with Log _ _ _ => true | _ => false end.

Definition http_posts (tr : list action) : list (str * list (string * str)) :=
  omap (λ a, match a with HttpPost url payload => Some (url, payload) | _ => None end) tr.

(** Actions of a coroutine that neither classify nor start anything: log
    records and requests to the HTTP sink. *)
Definition is_plain (a : action) : bool :=
  match a with Log _ _ _ | HttpPost _ _ => true | _ => false end.

(** The number of the calls of [_send_event_to_chain] for [event]. *)
Definition notify_count (event : str) (tr : list action) : nat :=
  length (filter (λ e, e = event) (notify_calls tr)).

(** A log record of a failure: a warning. *)
Definition logs_failure (tr : list action) : Prop :=
  ∃ fmt args, Log WARNING fmt args ∈ tr.

Definition logs_success (tr : list action) : Prop :=
  ∃ fmt args, Log INFO fmt args ∈ tr.

Definition sip_requests (tr : list action) : list CreateSIPParticipantRequest :=
  omap (λ a, match a with CreateSipParticipant r => Some r | _ => None end) tr.

(** ** The session of [entrypoint]

    After [session.start] and [ctx.connect], [entrypoint] waits for the
    event [disconnected] and returns.  Meanwhile the event loop calls the
    registered handlers and runs the tasks they created.  The state below
    holds what the closures of [entrypoint] share and the tasks of the loop.
    A task runs from its creation to its end in one step: the tasks share no
    data besides [active_text_tasks], which only the done-callback of a
    text-stream task touches. *)

Record Session := {
  (** the [asyncio.Event] [disconnected] *)
  disconnected : bool;
  (** the set [active_text_tasks], by task number *)
  active_text_tasks : gset nat;
  (** the tasks of the loop that have not finished *)
  in_flight : list (nat * coro);
  (** the tasks that have finished, with how they ended *)
  finished : list (nat * result unit);
  next_task : nat;
  (** [entrypoint] has returned *)
  returned : bool;
  (** the actions performed so far *)
  history : list action;
}.

Definition session_start : Session := {|
  disconnected := false;
  active_text_tasks := ∅;
  in_flight := [];
  finished := [];
  next_task := 0;
  returned := false;
  history := [];
|}.

Inductive event :=
  (** the room delivers a text stream on the topic [video.description] *)
  | TextStream (reader : TextStreamReader) (identity : str)
  (** the voice session emits [user_input_transcribed] *)
  | Transcribed (transcript : UserInputTranscribed)
  (** the room emits [disconnected] *)
  | Disconnected
  (** the loop runs a task to its end, the outside answering as [w] *)
  | TaskRuns (task : nat) (w : World)
  (** the loop resumes [entrypoint] at [await disconnected.wait()] *)
  | EntrypointResumes.

(** [asyncio.create_task] for each coroutine of [cs], in order. *)
Definition create_tasks (cs : list coro) (s : Session) : Session :=
  {| disconnected := disconnected s;
     active_text_tasks := active_text_tasks s;
     in_flight := in_flight s ++ zip (seq (next_task s) (length cs)) cs;
     finished := finished s;
     next_task := next_task s + length cs;
     returned := returned s;
     history := history s |}.

Definition record_actions (tr : list action) (s : Session) : Session :=
  {| disconnected := disconnected s;
     active_text_tasks := active_text_tasks s;
     in_flight := in_flight s;
     finished := finished s;
     next_task := next_task s;
     returned := returned s;
     history := history s ++ tr |}.

Definition lookup_task (task : nat) (s : Session) : option coro :=
  (λ found : nat * (nat * coro), found.2.2) <$>
    list_find (λ tc, tc.1 = task) (in_flight s).

Section session.
Context `{UnicodeData}.
Variable room : str.

(** The callback registered with [register_text_stream_handler]. *)
Definition _register_text_stream (reader : TextStreamReader) (identity : str)
    (s : Session) : Session :=
  let task := next_task s in
  let s := create_tasks [handle_text_stream reader identity] s in
  {| disconnected := disconnected s;
     active_text_tasks := active_text_tasks s ∪ {[task]};
     in_flight := in_flight s;
     finished := finished s;
     next_task := next_task s;
     returned := returned s;
     history := history s |}.

(** A task ends: its result is kept, the tasks it created join the loop,
    and the done-callback of a text-stream task discards it from
    [active_text_tasks]. *)
Definition task_runs (task : nat) (w : World) (s : Session) : Session :=
  match lookup_task task s with
  | None => s
  | Some c =>
      let '(tr, r) := run_coro room w c in
      let s' := {|
        disconnected := disconnected s;
        active_text_tasks :=
          match c with
          | handle_text_stream _ _ => active_text_tasks s ∖ {[task]}
          | _ => active_text_tasks s
          end;
        in_flight := filter (λ tc, tc.1 ≠ task) (in_flight s);
        finished := finished s ++ [(task, r)];
        next_task := next_task s;
        returned := returned s;
        history := history s |} in
      create_tasks (created_tasks tr) (record_actions tr s')
  end.

Definition _on_disconnected (s : Session) : Session :=
  {| disconnected := true;
     active_text_tasks := active_text_tasks s;
     in_flight := in_flight s;
     finished := finished s;
     next_task := next_task s;
     returned := returned s;
     history := history s |}.

(** [await disconnected.wait()] is the last statement of [entrypoint]. *)
Definition entrypoint_resumes (s : Session) : Session :=
  {| disconnected := disconnected s;
     active_text_tasks := active_text_tasks s;
     in_flight := in_flight s;
     finished := finished s;
     next_task := next_task s;
     returned := returned s || disconnected s;
     history := history s |}.

Definition step (s : Session) (e : event) : Session :=
  match e with
  | TextStream reader identity => _register_text_stream reader identity s
  | Transcribed transcript =>
      let '(tr, _) := _on_transcript room transcript in
      create_tasks (created_tasks tr) (record_actions tr s)
  | Disconnected => _on_disconnected s
  | TaskRuns task w => task_runs task w s
  | EntrypointResumes => entrypoint_resumes s
  end.

Definition run (es : list event) : Session := foldl step session_start es.

(** The events that bring new input: a payload or a transcript. *)
Definition is_input (e : event) : bool :=
  match e with
  | TextStream _ _ | Transcribed _ => true
  | _ => false
  end.

(** *** The drain the specification describes

    Stated on the session above: once [disconnected] is set no input
    creates a task, the signal cancels nothing, and [entrypoint] does not
    return while a task is in flight.  The code reads no clock, so a wait
    for the tasks of the session can only end with the tasks. *)

Definition no_task_after_disconnect : Prop :=
  ∀ s e, disconnected s = true → is_input e = true →
         in_flight (step s e) = in_flight s.

Definition disconnect_cancels_nothing : Prop :=
  ∀ s, in_flight (step s Disconnected) = in_flight s.

Definition waits_for_in_flight : Prop :=
  ∀ es, returned (run es) = true → in_flight (run es) = [].
End session.

(** *** The two lower-case sigmas

    [str.lower] is not a homomorphism for concatenation: what follows a
    capital sigma decides between U+03C2 and U+03C3.  Two lower-cased texts
    are variants of each other when they differ at most in that choice. *)

Definition is_small_sigma (c : N) : bool := (c =? 0x3C2)%N || (c =? 0x3C3)%N.

Definition sigma_variant (x y : N) : Prop :=
  x = y ∨ (is_small_sigma x = true ∧ is_small_sigma y = true).

(** ** Sample inputs *)

(** An outside where [LIVEKIT_SIP_TRUNK_ID] is [trunk], every request to the
    HTTP sink is answered with [status], the LiveKit API accepts every
    request, and the clock reads [now]. *)
Definition sample_world (trunk : option str) (status : Z) (now : Q) : World := {|
  getenv := λ name, if bool_decide (name = "LIVEKIT_SIP_TRUNK_ID") then trunk else None;
  time_time := now;
  post_event_sync := λ _ _, Return (status, py "{}");
  new_LiveKitAPI := Return tt;
  create_sip_participant := λ _, Return (py "participant");
  aclose := Return tt;
|}.

(** A text stream on the topic [video.description] whose payload reads as
    [payload]. *)
Definition sample_reader (payload : result str) : TextStreamReader := {|
  reader_info := {|
    info_topic := py "video.description";
    info_id := Some (py "stream-1");
    info_stream_id := None;
    info_size := None;
  |};
  reader_read_all := payload;
|}.

Definition final_transcript (text : str) : UserInputTranscribed :=
  {| ev_transcript := Some text; ev_is_final := Some true |}.

Definition interim_transcript (text : str) : UserInputTranscribed :=
  {| ev_transcript := Some text; ev_is_final := Some false |}.

(** Two call attempts within one second: the clock reads 1700000000.25 and
    1700000000.75. *)
Definition early_attempt : World :=
  sample_world (Some (py "ST_trunk")) 200 (Qmake 6800000001 4).

Definition late_attempt : World :=
  sample_world (Some (py "ST_trunk")) 200 (Qmake 6800000003 4).

(** The texts of the examples of the specification. *)
Definition shots_text : str := py "drop the weapon, shots fired".

Definition camera_text : str := py "camera blocked, camera obscured".

(** An outside with no trunk identifier whose HTTP sink answers 200, and
    one whose HTTP sink answers 500. *)
Definition quiet_world : World := sample_world None 200 (Qmake 1700000000 1).

Definition failing_sink : World := sample_world None 500 (Qmake 1700000000 1).

(** ** The agent and its tools

    [TranscriberAgent] keeps the name of the room; [entrypoint] stores
    [ctx.room.name] in it before the session starts.  Its two function tools
    are called by the model. *)

Record TranscriberAgent := { self_room_name : option str }.

(** [TranscriberAgent()] *)
Definition TranscriberAgent_init : TranscriberAgent :=
  {| self_room_name := None |}.

(** [agent = TranscriberAgent(); agent.room_name = ctx.room.name] *)
Definition entrypoint_agent (room : str) : TranscriberAgent :=
  {| self_room_name := Some room |}.

Definition TranscriberAgent_foo (self : TranscriberAgent)
    (transcript room_name : str) : M (list (string * bool)) :=
  emit (Log WARNING "Trigger detected in room %s: %s"
          [VStr room_name; VStr transcript]);;
  mret [("ok", true)].

Definition TranscriberAgent_dispatch_outbound_call (self : TranscriberAgent)
    (w : World) (transcript : str) : M (list (string * str)) :=
  _dispatch_outbound_call w transcript (self_room_name self).

(** The local [request] of [_dispatch_outbound_call], for the trunk
    identifier [trunk_id] and the argument [room]. *)
Definition call_request (w : World) (trunk_id : str) (room : option str) :
    CreateSIPParticipantRequest := {|
  sip_trunk_id := trunk_id;
  sip_call_to := OUTBOUND_PHONE_NUMBER;
  room_name :=
    or_else room (default (py "sip-alerts") (getenv w "LIVEKIT_SIP_ROOM_NAME"));
  participant_identity := new_participant_identity w;
  participant_name := py "Shots Fired Alert";
  krisp_enabled := true;
  wait_until_answered := false;
|}.

(** ** A whole detection cycle

    The requests to the HTTP sink that a cycle makes: those of the handler
    itself and those of the tasks it created, each run to its end. *)
Definition cycle_posts `{UnicodeData} (room : str) (w : World)
    (tr : list action) : list (str * list (string * str)) :=
  http_posts tr ++ (created_tasks tr ≫= λ c, http_posts (run_coro room w c).1).

(** The request of the notification of [event]. *)
Definition event_post (room : str) (w : World) (text event : str) :
    str * list (string * str) :=
  (events_url w, event_payload event text room).

(** ** Letter case in Basic Latin *)

Definition is_upper (c : N) : bool := bool_decide (65 ≤ c ≤ 90)%N.

(** Two characters that are equal, or the two cases of one Basic Latin
    letter. *)
Definition same_letter (x y : N) : Prop :=
  x = y ∨ (is_upper x = true ∧ y = (x + 32)%N) ∨ (is_upper y = true ∧ x = (y + 32)%N).

(** A database that lower-cases Basic Latin as Unicode does. *)
Definition lowers_basic_latin `{UnicodeData} : Prop :=
  ∀ c, (c < 128)%N → ToLowerFull c = basic_latin_lower c.

(** ** Bookkeeping of the session *)

(** The numbers of the text-stream tasks in flight. *)
Definition text_task_ids (s : Session) : gset nat :=
  list_to_set
    (omap (λ tc : nat * coro,
             match tc.2 with
             | handle_text_stream _ _ => Some tc.1
             | _ => None
             end) (in_flight s)).

(** The log record of a placed call. *)
Definition logs_dispatched (tr : list action) : Prop :=
  ∃ args,
    Log WARNING "Outbound call dispatched to %s (room=%s, participant=%s) for: %s"
      args ∈ tr.

(** An outside with a trunk identifier whose LiveKit API refuses the
    request with [exc]; the API client closes normally. *)
Definition refusing_sip (exc : exn) : World := {|
  getenv := λ name,
    if bool_decide (name = "LIVEKIT_SIP_TRUNK_ID") then Some (py "ST_trunk") else None;
  time_time := Qmake 1700000000 1;
  post_event_sync := λ _ _, Return (200%Z, py "{}");
  new_LiveKitAPI := Return tt;
  create_sip_participant := λ _, Raise exc;
  aclose := Return tt;
|}.

(** The tasks of the session are numbered in the order of their creation:
    the tasks in flight and the finished ones are, together, the tasks
    [0 .. next_task - 1], each once. *)
Definition tasks_accounted (s : Session) : Prop :=
  (in_flight s).*1 ++ (finished s).*1 ≡ₚ seq 0 (next_task s).

(** A coroutine other than the handler of a text stream. *)
Definition is_leaf (c : coro) : bool :=
  match c with
  | handle_text_stream _ _ => false
  | _ => true
  end.

Global Instance same_letter_dec : RelDecision same_letter.
Proof. intros x y. unfold same_letter. apply _. Defined.

(** The event kinds of the table. *)
Definition event_kinds : gset str := list_to_set (TRIGGER_PHRASES.*2).

(** * Properties *)

(** *** Substring search is correct *)

Lemma str_startswith_spec (s prefix : str) :
  str_startswith s prefix = true ↔ ∃ post, s = prefix ++ post.
Proof.
  revert s. induction prefix as [|p prefix IH]; intros s; simpl.
  - split; [intros _; by exists s | done].
  - destruct s as [|c s].
    + split; [discriminate | intros [post Hpost]; discriminate].
    + rewrite andb_true_iff, bool_decide_eq_true, IH. split.
      * intros [-> [post ->]]. by exists post.
      * intros [post Hpost]. injection Hpost as -> ->. eauto.
Qed.

Lemma str_contains_spec (needle hay : str) :
  str_contains needle hay = true ↔ occurs_in needle hay.
Proof.
  unfold occurs_in. induction hay as [|c hay IH]; simpl.
  - rewrite orb_false_r, str_startswith_spec. split.
    + intros [post Hpost]. by exists [], post.
    + intros ([|? pre] & post & Heq); [by exists post | discriminate].
  - rewrite orb_true_iff, str_startswith_spec, IH. split.
    + intros [[post ->] | (pre & post & ->)].
      * by exists [], post.
      * by exists (c :: pre), post.
    + intros ([|c' pre] & post & Heq).
      * left. by exists post.
      * right. injection Heq as -> ->. by exists pre, post.
Qed.

Lemma extract_trigger_events_elem `{UnicodeData} (text event : str) :
  event ∈ _extract_trigger_events text ↔
  ∃ phrase, (phrase, event) ∈ TRIGGER_PHRASES ∧ occurs_in phrase (str_lower text).
Proof.
  unfold _extract_trigger_events. cbv zeta.
  rewrite elem_of_list_to_set, list_elem_of_omap. split.
  - intros ([phrase event'] & Hin & Hsome).
    destruct (str_contains phrase (str_lower text)) eqn:Hc; [|done].
    injection Hsome as ->. exists phrase. by rewrite <- str_contains_spec.
  - intros (phrase & Hin & Hocc). exists (phrase, event). split; [done|].
    apply str_contains_spec in Hocc. by rewrite Hocc.
Qed.


(** *** Lower-casing and concatenation *)

Section lower_concat.
Context `{UnicodeData}.

Lemma sigma_variant_refl (l : str) : Forall2 sigma_variant l l.
Proof. induction l; constructor; [by left | done]. Qed.

Lemma lower_ucs4_variant (before after before' after' : str) (c : N) :
  Forall2 sigma_variant (lower_ucs4 before after c) (lower_ucs4 before' after' c).
Proof.
  unfold lower_ucs4. destruct (c =? 0x3A3)%N; [|apply sigma_variant_refl].
  constructor; [|constructor]. right. unfold handle_capital_sigma.
  by destruct (final_sigma before after), (final_sigma before' after').
Qed.

(** The lower-cased prefix of a longer text is a variant of the lower-cased
    text alone, whatever comes before and after. *)
Lemma do_lower_app (a b before before' : str) :
  ∃ la, do_lower before (a ++ b) = la ++ do_lower (reverse a ++ before) b ∧
        Forall2 sigma_variant (do_lower before' a) la.
Proof.
  revert before before'. induction a as [|c a IH]; intros before before'.
  - exists (@nil N). split; [done | constructor].
  - destruct (IH (c :: before) (c :: before')) as (la & Heq & Hvar).
    exists (lower_ucs4 before (a ++ b) c ++ la). split.
    + simpl. rewrite Heq, reverse_cons, <- !app_assoc. done.
    + simpl. apply Forall2_app; [apply lower_ucs4_variant | done].
Qed.

Lemma do_lower_variant (a before before' : str) :
  Forall2 sigma_variant (do_lower before' a) (do_lower before a).
Proof.
  destruct (do_lower_app a [] before before') as (la & Heq & Hvar).
  rewrite !app_nil_r in Heq. by rewrite Heq.
Qed.

Lemma sigma_variant_eq (p p' : str) :
  Forall (λ c, is_small_sigma c = false) p →
  Forall2 sigma_variant p p' → p = p'.
Proof.
  intros Hp Hvar. induction Hvar as [|x y p p' Hxy Hvar IH]; [done|].
  apply Forall_cons in Hp as [Hx Hp]. f_equal; [|by apply IH].
  destruct Hxy as [?|[Hsx _]]; [done | congruence].
Qed.

Lemma occurs_in_variant (p l l' : str) :
  Forall (λ c, is_small_sigma c = false) p →
  Forall2 sigma_variant l l' → occurs_in p l → occurs_in p l'.
Proof.
  intros Hp Hvar (pre & post & ->).
  apply Forall2_app_inv_l in Hvar as (pre' & r & _ & Hvar & ->).
  apply Forall2_app_inv_l in Hvar as (p' & post' & Hpp & _ & ->).
  apply sigma_variant_eq in Hpp as <-; [|done].
  by exists pre', post'.
Qed.

Lemma occurs_in_app_l (p l r : str) : occurs_in p l → occurs_in p (l ++ r).
Proof.
  intros (pre & post & ->). exists pre, (post ++ r). by rewrite <- !app_assoc.
Qed.

Lemma occurs_in_app_r (p l r : str) : occurs_in p r → occurs_in p (l ++ r).
Proof.
  intros (pre & post & ->). exists (l ++ pre), post. by rewrite <- !app_assoc.
Qed.

Lemma occurs_in_lower_app (p a b : str) :
  Forall (λ c, is_small_sigma c = false) p →
  occurs_in p (str_lower a) →
  occurs_in p (str_lower (a ++ b)) ∧ occurs_in p (str_lower (b ++ a)).
Proof.
  intros Hp Hocc. unfold str_lower in *. split.
  - destruct (do_lower_app a b [] []) as (la & -> & Hvar).
    apply occurs_in_app_l. by apply (occurs_in_variant p (do_lower [] a)).
  - destruct (do_lower_app b a [] []) as (lb & -> & _).
    apply occurs_in_app_r.
    apply (occurs_in_variant p (do_lower [] a)); [done | | done].
    apply do_lower_variant.
Qed.
End lower_concat.

(** A stretch of the text that lower-cases to a phrase is found, whatever
    surrounds it: matching ignores case. *)
Lemma occurs_in_lower_segment `{UnicodeData} (pre mid post : str) :
  Forall (λ c, is_small_sigma c = false) (str_lower mid) →
  occurs_in (str_lower mid) (str_lower (pre ++ mid ++ post)).
Proof.
  intros Hplain. unfold str_lower in *.
  destruct (do_lower_app pre (mid ++ post) [] []) as (lpre & -> & _).
  destruct (do_lower_app mid post (reverse pre ++ []) []) as (lmid & -> & Hvar).
  apply sigma_variant_eq in Hvar as <-; [|done].
  by exists lpre, (do_lower (reverse mid ++ reverse pre ++ []) post).
Qed.

Lemma trigger_phrases_plain (phrase event : str) :
  (phrase, event) ∈ TRIGGER_PHRASES →
  Forall (λ c, is_small_sigma c = false) phrase.
Proof.
  intros Hin.
  assert (Forall (λ pe : str * str, Forall (λ c, is_small_sigma c = false) pe.1)
            TRIGGER_PHRASES) as Hall.
  { apply (bool_decide_unpack _). by vm_compute. }
  rewrite Forall_forall in Hall. apply (Hall _ Hin).
Qed.

(** Matching ignores case: a stretch of the text that lower-cases to a
    phrase gives the event kind of the phrase. *)
Lemma extract_trigger_events_caseless `{UnicodeData}
    (pre mid post phrase event : str) :
  (phrase, event) ∈ TRIGGER_PHRASES → str_lower mid = phrase →
  event ∈ _extract_trigger_events (pre ++ mid ++ post).
Proof.
  intros Hin Hmid. apply extract_trigger_events_elem. exists phrase.
  split; [done|]. rewrite <- Hmid. apply occurs_in_lower_segment.
  rewrite Hmid. by eapply trigger_phrases_plain.
Qed.

(** C10: classification is monotone under concatenation; a text extended on
    the right or on the left keeps every event kind it had. *)
Theorem extract_trigger_events_mono `{UnicodeData} (a b : str) :
  _extract_trigger_events a ⊆ _extract_trigger_events (a ++ b) ∧
  _extract_trigger_events a ⊆ _extract_trigger_events (b ++ a).
Proof.
  assert (∀ event, event ∈ _extract_trigger_events a →
            event ∈ _extract_trigger_events (a ++ b) ∧
            event ∈ _extract_trigger_events (b ++ a)) as Hmono.
  { intros event. rewrite !extract_trigger_events_elem.
    intros (phrase & Hin & Hocc).
    destruct (occurs_in_lower_app phrase a b) as [Hab Hba];
      [by eapply trigger_phrases_plain | done |].
    split; exists phrase; done. }
  split; intros event Hmem; by apply Hmono.
Qed.

(** *** The monad of actions *)

Lemma bind_unfold {A B} (f : A → M B) (tr : list action) (r : result A) :
  (tr, r) ≫= f =
  match r with
  | Return a => (tr ++ (f a).1, (f a).2)
  | Raise e => (tr, Raise e)
  end.
Proof. destruct r as [a|e]; simpl; [by destruct (f a)|done]. Qed.

Lemma emit_then {B} (a : action) (k : M B) : (emit a;; k) = (a :: k.1, k.2).
Proof. unfold emit. rewrite bind_unfold. done. Qed.

Lemma for_each_emits {A} (xs : list A) (body : A → M unit)
    (acts : A → list action) :
  (∀ x, body x = (acts x, Return tt)) →
  for_each xs body = (xs ≫= acts, Return tt).
Proof.
  intros Hbody. induction xs as [|x xs IH]; [done|].
  simpl. rewrite Hbody, bind_unfold, IH. done.
Qed.

Lemma notify_calls_app (tr1 tr2 : list action) :
  notify_calls (tr1 ++ tr2) = notify_calls tr1 ++ notify_calls tr2.
Proof. apply omap_app. Qed.

Lemma call_attempts_app (tr1 tr2 : list action) :
  call_attempts (tr1 ++ tr2) = call_attempts tr1 ++ call_attempts tr2.
Proof. apply omap_app. Qed.

Lemma created_tasks_app (tr1 tr2 : list action) :
  created_tasks (tr1 ++ tr2) = created_tasks tr1 ++ created_tasks tr2.
Proof. apply omap_app. Qed.

Lemma plain_actions (tr : list action) :
  forallb is_plain tr = true →
  notify_calls tr = [] ∧ call_attempts tr = [] ∧ created_tasks tr = [] ∧
  classifications tr = [] ∧ sip_requests tr = [].
Proof.
  induction tr as [|a tr IH]; [done|]. simpl. intros [Ha Htr]%andb_true_iff.
  destruct (IH Htr) as (? & ? & ? & ? & ?). by destruct a.
Qed.

(** *** The notification coroutine *)

Lemma send_event_to_chain_eq (w : World) (event transcript room : str) :
  _send_event_to_chain w event transcript room =
  if truthy (EVENTS_API_BASE_URL w) then
    let url := events_url w in
    let payload := event_payload event transcript room in
    (HttpPost url payload ::
       match post_event_sync w url payload with
       | Return (status, body) =>
           if (status >=? 300)%Z
           then [Log WARNING "Event publish failed (%s): %s" [VInt status; VStr body]]
           else [Log INFO "Event published (%s): %s" [VInt status; VStr body]]
       | Raise exc => [Log WARNING "Event publish error: %s" [VExc exc]]
       end,
     Return tt)
  else
    ([Log WARNING "Missing CLEARANCE_API_BASE_URL; skipping event publish." []],
     Return tt).
Proof.
  unfold _send_event_to_chain. destruct (truthy (EVENTS_API_BASE_URL w)); [|done].
  cbv zeta. simpl negb. cbv iota. rewrite emit_then. unfold outcome.
  rewrite bind_unfold.
  destruct (post_event_sync w _ _) as [[status body]|exc]; [|done].
  by destruct (status >=? 300)%Z.
Qed.

Lemma send_event_to_chain_plain (w : World) (event transcript room : str) :
  ∃ tr, _send_event_to_chain w event transcript room = (tr, Return tt) ∧
        forallb is_plain tr = true.
Proof.
  rewrite send_event_to_chain_eq.
  destruct (truthy _); [|by eexists]. cbv zeta.
  destruct (post_event_sync w _ _) as [[status body]|exc]; [|by eexists].
  destruct (status >=? 300)%Z; by eexists.
Qed.

(** C5: [_send_event_to_chain] always returns normally and makes at most
    one request, hence no second attempt; with a base URL it makes exactly
    one; a status below 300 is logged as a success, and a status of 300 or
    more, like an exception of the request, is logged as a failure and goes
    no further. *)
Theorem send_event_to_chain_contained (w : World) (event transcript room : str) :
  let run := _send_event_to_chain w event transcript room in
  let url := events_url w in
  let payload := event_payload event transcript room in
  run.2 = Return tt ∧
  (http_posts run.1 =
     if truthy (EVENTS_API_BASE_URL w) then [(url, payload)] else []) ∧
  (∀ status body,
     truthy (EVENTS_API_BASE_URL w) = true →
     post_event_sync w url payload = Return (status, body) →
     (status < 300)%Z →
     logs_success run.1 ∧ ¬ logs_failure run.1) ∧
  (∀ status body,
     truthy (EVENTS_API_BASE_URL w) = true →
     post_event_sync w url payload = Return (status, body) →
     (300 ≤ status)%Z →
     logs_failure run.1 ∧ ¬ logs_success run.1) ∧
  (∀ exc,
     truthy (EVENTS_API_BASE_URL w) = true →
     post_event_sync w url payload = Raise exc →
     logs_failure run.1 ∧ ¬ logs_success run.1).
Proof.
  cbv zeta. rewrite send_event_to_chain_eq. cbv zeta.
  unfold logs_success, logs_failure.
  destruct (truthy (EVENTS_API_BASE_URL w)) eqn:Hurl.
  - split; [done|]. split.
    { simpl. by destruct (post_event_sync w _ _) as [[s b]|e]; [destruct (s >=? 300)%Z|]. }
    split; [|split].
    + intros status body _ -> Hlt.
      destruct (Z.geb_spec status 300) as [?|_]; [lia|]. simpl. split.
      * do 2 eexists. apply list_elem_of_In. right. by left.
      * intros (fmt & args & Hin). apply list_elem_of_In in Hin.
        destruct Hin as [|[|[]]]; discriminate.
    + intros status body _ -> Hge.
      destruct (Z.geb_spec status 300) as [_|?]; [|lia]. simpl. split.
      * do 2 eexists. apply list_elem_of_In. right. by left.
      * intros (fmt & args & Hin). apply list_elem_of_In in Hin.
        destruct Hin as [|[|[]]]; discriminate.
    + intros exc _ ->. simpl. split.
      * do 2 eexists. apply list_elem_of_In. right. by left.
      * intros (fmt & args & Hin). apply list_elem_of_In in Hin.
        destruct Hin as [|[|[]]]; discriminate.
  - repeat split; try done; intros; discriminate.
Qed.

(** *** Counting in a list without duplicates *)

Lemma filter_eq_notin (k : str) (l : list str) :
  k ∉ l → filter (λ e, e = k) l = [].
Proof.
  induction l as [|x l IH]; [done|]. intros [Hx Hl]%not_elem_of_cons.
  rewrite filter_cons_False by congruence. by apply IH.
Qed.

Lemma count_unique (k : str) (l : list str) :
  NoDup l → k ∈ l → length (filter (λ e, e = k) l) = 1.
Proof.
  induction 1 as [|x l Hx Hl IH]; [by intros ?%elem_of_nil|].
  intros [->|Hin]%elem_of_cons.
  - rewrite filter_cons_True by done. by rewrite filter_eq_notin.
  - rewrite filter_cons_False by (intros ->; done). by apply IH.
Qed.

Lemma filter_out_perm (k : str) (l : list str) :
  NoDup l →
  filter (λ e, e ≠ k) l ++ (if bool_decide (k ∈ l) then [k] else []) ≡ₚ l.
Proof.
  induction 1 as [|x l Hx Hl IH]; [done|].
  destruct (decide (x = k)) as [->|Hxk].
  - rewrite filter_cons_False by (intros Hne; by apply Hne).
    rewrite (bool_decide_eq_true_2 (k ∈ k :: l)) by (apply elem_of_cons; by left).
    rewrite (bool_decide_eq_false_2 (k ∈ l)) in IH by done.
    rewrite app_nil_r in IH. by rewrite IH, Permutation_app_comm.
  - rewrite filter_cons_True by done. simpl. f_equiv.
    assert (bool_decide (k ∈ x :: l) = bool_decide (k ∈ l)) as ->; [|done].
    apply bool_decide_ext. rewrite elem_of_cons.
    split; [intros [->|Hin]; [by destruct Hxk | done] | by right].
Qed.

Lemma filter_length_perm (k : str) (l l' : list str) :
  l ≡ₚ l' → length (filter (λ e, e = k) l) = length (filter (λ e, e = k) l').
Proof. intros Hperm. by rewrite Hperm. Qed.

(** *** The handlers *)

Section handler_properties.
Context `{UnicodeData}.
Variable room : str.

Lemma extract_trigger_events_nil : _extract_trigger_events [] = ∅.
Proof.
  apply leibniz_equiv, elem_of_equiv_empty. intros event Hmem.
  apply extract_trigger_events_elem in Hmem as (phrase & Hin & pre & post & Heq).
  change (str_lower []) with (@nil N) in Heq.
  symmetry in Heq. apply app_eq_nil in Heq as [_ [-> _]%app_eq_nil].
  revert Hin. apply (bool_decide_unpack _). by vm_compute.
Qed.

Lemma handle_text_stream_eq (w : World) (reader : TextStreamReader)
    (identity text : str) :
  reader_read_all reader = Return text → truthy text = true →
  ∃ received,
    _handle_text_stream room w reader identity =
    ([received; ReadAll (reader_info reader);
      Log INFO "Text stream content: %s" [VStr text]; Classify text] ++
     (elements (_extract_trigger_events text) ≫= λ event,
        if bool_decide (event = shots_fired) then []
        else [CreateTask (send_event_to_chain event text room)]) ++
     (if bool_decide (shots_fired ∈ _extract_trigger_events text) then
        [Log WARNING "Audio trigger detected in text stream (room=%s): %s"
           [VStr room; VStr text];
         Await (send_event_to_chain shots_fired text room)] ++
        (_send_event_to_chain w shots_fired text room).1 ++
        [CreateTask (dispatch_outbound_call text (Some room))]
      else []),
     Return tt) ∧
    is_log received = true.
Proof.
  intros Hread Htext. unfold _handle_text_stream. cbv zeta.
  rewrite Hread.
  cbn [try_except outcome emit mbind M_bind mret M_ret app].
  rewrite Htext.
  rewrite (for_each_emits _ _ (λ event,
      if bool_decide (event = shots_fired) then []
      else [CreateTask (send_event_to_chain event text room)]))
    by (intros x; by destruct (bool_decide _)).
  destruct (send_event_to_chain_plain w shots_fired text room) as (tr & Hsend & _).
  rewrite Hsend. eexists (Log INFO _ _). split; [|reflexivity].
  destruct (decide (_extract_trigger_events text = ∅)) as [Hempty|Hne].
  - rewrite Hempty, elements_empty.
    rewrite (bool_decide_eq_false_2 (∅ ≠ ∅)) by (intros Hne; by apply Hne).
    rewrite (bool_decide_eq_false_2 (shots_fired ∈ ∅)) by apply not_elem_of_empty.
    reflexivity.
  - rewrite (bool_decide_eq_true_2 _ Hne).
    case_bool_decide; cbn [mbind M_bind mret M_ret emit app fst snd];
      rewrite ?app_nil_r; reflexivity.
Qed.

Lemma handle_text_stream_returns (w : World) (reader : TextStreamReader)
    (identity : str) :
  (_handle_text_stream room w reader identity).2 = Return tt.
Proof.
  destruct (reader_read_all reader) as [text|exc] eqn:Hread.
  - destruct (truthy text) eqn:Htext.
    + by destruct (handle_text_stream_eq w reader identity text)
        as (received & -> & _).
    + unfold _handle_text_stream. cbv zeta. rewrite Hread.
      cbn [try_except outcome emit mbind M_bind mret M_ret app].
      by rewrite Htext.
  - unfold _handle_text_stream. cbv zeta. by rewrite Hread.
Qed.

Lemma loop_notify_calls (text : str) (l : list str) :
  notify_calls (l ≫= λ event,
      if bool_decide (event = shots_fired) then []
      else [CreateTask (send_event_to_chain event text room)]) =
  filter (λ e, e ≠ shots_fired) l.
Proof.
  induction l as [|x l IH]; [done|]. rewrite bind_cons, notify_calls_app, IH.
  case_bool_decide.
  - by rewrite filter_cons_False by (intros Hne; by apply Hne).
  - by rewrite filter_cons_True by done.
Qed.

Lemma loop_call_attempts (text : str) (l : list str) :
  call_attempts (l ≫= λ event,
      if bool_decide (event = shots_fired) then []
      else [CreateTask (send_event_to_chain event text room)]) = [].
Proof.
  induction l as [|x l IH]; [done|]. rewrite bind_cons, call_attempts_app, IH.
  by case_bool_decide.
Qed.

Lemma text_stream_notify_calls (w : World) (reader : TextStreamReader)
    (identity text : str) :
  reader_read_all reader = Return text → truthy text = true →
  notify_calls (_handle_text_stream room w reader identity).1 ≡ₚ
  elements (_extract_trigger_events text).
Proof.
  intros Hread Htext.
  destruct (handle_text_stream_eq w reader identity text)
    as (received & -> & Hlog); [done..|].
  destruct received; try discriminate.
  destruct (send_event_to_chain_plain w shots_fired text room)
    as (tr & Hsend & Hplain).
  apply plain_actions in Hplain as (Hnotify & _).
  rewrite Hsend. cbn [fst].
  rewrite !notify_calls_app, loop_notify_calls.
  rewrite <- (filter_out_perm shots_fired (elements _)) at 2 by apply NoDup_elements.
  assert (bool_decide (shots_fired ∈ elements (_extract_trigger_events text)) =
          bool_decide (shots_fired ∈ _extract_trigger_events text)) as ->
    by (apply bool_decide_ext, elem_of_elements).
  case_bool_decide; [|done].
  by rewrite !notify_calls_app, Hnotify.
Qed.

Lemma text_stream_call_attempts (w : World) (reader : TextStreamReader)
    (identity text : str) :
  reader_read_all reader = Return text → truthy text = true →
  call_attempts (_handle_text_stream room w reader identity).1 =
  if bool_decide (shots_fired ∈ _extract_trigger_events text)
  then [dispatch_outbound_call text (Some room)] else [].
Proof.
  intros Hread Htext.
  destruct (handle_text_stream_eq w reader identity text)
    as (received & -> & Hlog); [done..|].
  destruct received; try discriminate.
  destruct (send_event_to_chain_plain w shots_fired text room)
    as (tr & Hsend & Hplain).
  apply plain_actions in Hplain as (_ & Hcalls & _).
  rewrite Hsend. cbn [fst].
  rewrite !call_attempts_app, loop_call_attempts.
  case_bool_decide; [|done].
  by rewrite !call_attempts_app, Hcalls.
Qed.

Lemma on_transcript_eq (transcript : UserInputTranscribed) :
  _on_transcript room transcript =
  let text := str_strip (default [] (ev_transcript transcript)) in
  if truthy text then
    if default false (ev_is_final transcript) then
      (Log INFO "Transcript%s: %s" [VStr (py " (final)"); VStr text] ::
       Classify text ::
       (elements (_extract_trigger_events text) ≫= λ event,
          [CreateTask (send_event_to_chain event text room)]),
       Return tt)
    else ([Log INFO "Transcript%s: %s" [VStr []; VStr text]], Return tt)
  else ([], Return tt).
Proof.
  unfold _on_transcript. cbv zeta.
  destruct (truthy _); [|done].
  destruct (default false _); [|done].
  cbn [negb]. cbv iota.
  rewrite (for_each_emits _ _ (λ event,
      [CreateTask (send_event_to_chain event _ room)])) by done.
  reflexivity.
Qed.

Lemma transcript_loop_notify_calls (text : str) (l : list str) :
  notify_calls (l ≫= λ event,
      [CreateTask (send_event_to_chain event text room)]) = l.
Proof.
  induction l as [|x l IH]; [done|].
  rewrite bind_cons, notify_calls_app, IH. done.
Qed.

Lemma transcript_loop_call_attempts (text : str) (l : list str) :
  call_attempts (l ≫= λ event,
      [CreateTask (send_event_to_chain event text room)]) = [].
Proof.
  induction l as [|x l IH]; [done|].
  rewrite bind_cons, call_attempts_app, IH. done.
Qed.

Lemma truthy_of_match (text event : str) :
  event ∈ _extract_trigger_events text → truthy text = true.
Proof.
  destruct text; [|done]. rewrite extract_trigger_events_nil.
  by intros ?%not_elem_of_empty.
Qed.
End handler_properties.

(** *** Whitespace *)

Lemma str_strip_whitespace `{UnicodeData} (s : str) :
  Forall (λ c, IsWhitespace c = true) s → str_strip s = [].
Proof.
  intros Hws. unfold str_strip.
  assert (str_lstrip s = []) as ->; [|done].
  induction Hws as [|c s Hc _ IH]; [done|]. simpl. by rewrite Hc.
Qed.

Section dispatch_policy.
Context `{UnicodeData}.
Variable room : str.

(** C2, as the code has it: a text-stream payload whose matched events
    contain [shots_fired] gets exactly one call of the notification for
    [shots_fired] and exactly one outbound call attempt; a final transcript
    whose matched events contain [shots_fired] gets exactly one call of the
    notification for [shots_fired] and no outbound call attempt. *)
Theorem shots_fired_dispatch (w : World) :
  (∀ reader identity text,
     reader_read_all reader = Return text →
     shots_fired ∈ _extract_trigger_events text →
     let tr := (_handle_text_stream room w reader identity).1 in
     classifications tr = [text] ∧
     notify_count shots_fired tr = 1 ∧
     call_attempts tr = [dispatch_outbound_call text (Some room)]) ∧
  (∀ transcript,
     let text := str_strip (default [] (ev_transcript transcript)) in
     default false (ev_is_final transcript) = true →
     shots_fired ∈ _extract_trigger_events text →
     let tr := (_on_transcript room transcript).1 in
     classifications tr = [text] ∧
     notify_count shots_fired tr = 1 ∧
     call_attempts tr = []).
Proof.
  split.
  - intros reader identity text Hread Hshots tr.
    pose proof (truthy_of_match _ _ Hshots) as Htext.
    split; [|split].
    + subst tr.
      destruct (handle_text_stream_eq room w reader identity text)
        as (received & -> & Hlog); [done..|].
      destruct received; try discriminate.
      destruct (send_event_to_chain_plain w shots_fired text room)
        as (tr & Hsend & Hplain).
      apply plain_actions in Hplain as (_ & _ & _ & Hcls & _).
      rewrite Hsend. cbn [fst]. unfold classifications in *.
      rewrite !omap_app, (bool_decide_eq_true_2 _ Hshots), !omap_app, Hcls.
      assert (∀ l : list str, omap
                (λ a, match a with Classify t => Some t | _ => None end)
                (l ≫= λ event,
                   if bool_decide (event = shots_fired) then []
                   else [CreateTask (send_event_to_chain event text room)]) = [])
        as ->; [|done].
      intros l. induction l as [|x l IH]; [done|].
      rewrite bind_cons, omap_app, IH. by case_bool_decide.
    + unfold notify_count, tr.
      rewrite (filter_length_perm _ _ _
                 (text_stream_notify_calls room w reader identity text Hread Htext)).
      apply count_unique; [apply NoDup_elements | by apply elem_of_elements].
    + unfold tr. rewrite (text_stream_call_attempts room w reader identity text)
        by done.
      by rewrite (bool_decide_eq_true_2 _ Hshots).
  - intros transcript text Hfinal Hshots tr. subst tr.
    pose proof (truthy_of_match _ _ Hshots) as Htext.
    rewrite on_transcript_eq. cbv zeta. fold text. rewrite Htext, Hfinal.
    cbn [fst]. split; [|split].
    + unfold classifications. cbn [omap list_omap]. f_equal.
      induction (elements _) as [|x l IH]; [done|].
      by rewrite bind_cons, omap_app, IH.
    + unfold notify_count.
      change (notify_calls (?a :: ?b :: ?l)) with (notify_calls l).
      rewrite transcript_loop_notify_calls.
      apply count_unique; [apply NoDup_elements | by apply elem_of_elements].
    + change (call_attempts (?a :: ?b :: ?l)) with (call_attempts l).
      apply transcript_loop_call_attempts.
Qed.

(** C4: in a cycle of either channel, every matched event kind other than
    [shots_fired] gets exactly one call of the notification, and brings no
    outbound call attempt: the attempts of the cycle are the single one that
    [shots_fired] brings on the text stream, and none otherwise. *)
Theorem other_events_notified_once (w : World) :
  (∀ reader identity text event,
     reader_read_all reader = Return text →
     event ∈ _extract_trigger_events text →
     event ≠ shots_fired →
     let tr := (_handle_text_stream room w reader identity).1 in
     notify_count event tr = 1 ∧
     call_attempts tr =
       if bool_decide (shots_fired ∈ _extract_trigger_events text)
       then [dispatch_outbound_call text (Some room)] else []) ∧
  (∀ transcript event,
     let text := str_strip (default [] (ev_transcript transcript)) in
     default false (ev_is_final transcript) = true →
     event ∈ _extract_trigger_events text →
     event ≠ shots_fired →
     let tr := (_on_transcript room transcript).1 in
     notify_count event tr = 1 ∧ call_attempts tr = []).
Proof.
  split.
  - intros reader identity text event Hread Hevent _ tr.
    pose proof (truthy_of_match _ _ Hevent) as Htext. split.
    + unfold notify_count, tr.
      rewrite (filter_length_perm _ _ _
                 (text_stream_notify_calls room w reader identity text Hread Htext)).
      apply count_unique; [apply NoDup_elements | by apply elem_of_elements].
    + by apply text_stream_call_attempts.
  - intros transcript event text Hfinal Hevent _ tr. subst tr.
    pose proof (truthy_of_match _ _ Hevent) as Htext.
    rewrite on_transcript_eq. cbv zeta. fold text. rewrite Htext, Hfinal.
    cbn [fst]. split.
    + unfold notify_count.
      change (notify_calls (?a :: ?b :: ?l)) with (notify_calls l).
      rewrite transcript_loop_notify_calls.
      apply count_unique; [apply NoDup_elements | by apply elem_of_elements].
    + change (call_attempts (?a :: ?b :: ?l)) with (call_attempts l).
      apply transcript_loop_call_attempts.
Qed.

(** C3: a transcript event that is not final is neither classified nor
    dispatched, whatever its text (at most it is logged); a transcript whose
    text is empty or all whitespace, or absent, is dropped with no action at
    all, final or not. *)
Theorem on_transcript_filters (transcript : UserInputTranscribed) :
  (default false (ev_is_final transcript) = false →
   let run := _on_transcript room transcript in
   run.2 = Return tt ∧ forallb is_log run.1 = true ∧
   classifications run.1 = [] ∧ created_tasks run.1 = [] ∧
   notify_calls run.1 = [] ∧ call_attempts run.1 = []) ∧
  (Forall (λ c, IsWhitespace c = true) (default [] (ev_transcript transcript)) →
   _on_transcript room transcript = ([], Return tt)).
Proof.
  split.
  - intros Hinterim. cbv zeta. rewrite on_transcript_eq. cbv zeta.
    rewrite Hinterim. by destruct (truthy _).
  - intros Hws. rewrite on_transcript_eq. cbv zeta.
    by rewrite str_strip_whitespace.
Qed.

(** C7: when reading the payload fails, the handler logs the failure and
    returns normally: the text is not classified, no notification and no
    call is started, no request is made, and the exception stops there. *)
Theorem read_failure_abandons (w : World) (info : TextStreamInfo) (exc : exn)
    (identity : str) :
  let reader := {| reader_info := info; reader_read_all := Raise exc |} in
  let run := _handle_text_stream room w reader identity in
  run.2 = Return tt ∧
  (∃ received,
     is_log received = true ∧
     run.1 = [received; ReadAll info;
              Log WARNING "Text stream read failed: %s" [VExc exc]]) ∧
  classifications run.1 = [] ∧ created_tasks run.1 = [] ∧
  notify_calls run.1 = [] ∧ call_attempts run.1 = [] ∧
  http_posts run.1 = [] ∧ sip_requests run.1 = [].
Proof.
  cbv zeta. unfold _handle_text_stream. cbv zeta.
  cbn [reader_read_all reader_info try_except outcome emit mbind M_bind mret
       M_ret app fst snd].
  split; [done|]. split; [|done].
  eexists (Log INFO _ _). split; reflexivity.
Qed.
End dispatch_policy.

(** *** The outbound call coroutine *)

Lemma dispatch_unconfigured (w : World) (transcript : str) (room' : option str) :
  trunk_id_configured w = false →
  _dispatch_outbound_call w transcript room' = ([], Raise missing_trunk_id).
Proof.
  unfold trunk_id_configured, _dispatch_outbound_call.
  destruct (getenv w _) as [trunk_id|]; [|done]. by intros ->.
Qed.

Lemma dispatch_configured (w : World) (transcript : str) (room' : option str) :
  trunk_id_configured w = true →
  ∃ tr r, _dispatch_outbound_call w transcript room' = (NewLiveKitAPI :: tr, r).
Proof.
  unfold trunk_id_configured, _dispatch_outbound_call.
  destruct (getenv w _) as [trunk_id|]; [|done]. intros ->. cbv zeta.
  rewrite emit_then. by do 2 eexists.
Qed.

Section call_failure.
Context `{UnicodeData}.
Variable room : str.

Lemma text_stream_created_tasks (w : World) (reader : TextStreamReader)
    (identity text : str) (c : coro) :
  reader_read_all reader = Return text → truthy text = true →
  c ∈ created_tasks (_handle_text_stream room w reader identity).1 →
  (∃ event, c = send_event_to_chain event text room) ∨
  c = dispatch_outbound_call text (Some room).
Proof.
  intros Hread Htext.
  destruct (handle_text_stream_eq room w reader identity text)
    as (received & -> & Hlog); [done..|].
  destruct received; try discriminate.
  destruct (send_event_to_chain_plain w shots_fired text room)
    as (tr & Hsend & Hplain).
  apply plain_actions in Hplain as (_ & _ & Htasks & _).
  rewrite Hsend. cbn [fst]. rewrite !created_tasks_app.
  rewrite !elem_of_app. intros [Hin|[Hin|Hin]].
  - by apply elem_of_nil in Hin.
  - left. unfold created_tasks in Hin.
    apply list_elem_of_omap in Hin as (a & Ha & Hsome).
    apply list_elem_of_bind in Ha as (event & Ha & _).
    case_bool_decide; [by apply elem_of_nil in Ha|].
    apply list_elem_of_singleton in Ha as ->. injection Hsome as <-. eauto.
  - case_bool_decide; [|by apply elem_of_nil in Hin].
    rewrite !created_tasks_app, Htasks in Hin.
    apply list_elem_of_singleton in Hin. by right.
Qed.

(** C6: [_dispatch_outbound_call] raises the error of the missing trunk
    identifier, having made no request at all, exactly when the trunk
    identifier is not configured; with a trunk identifier it goes on to the
    LiveKit API.  In a text-stream cycle with [shots_fired] and no trunk
    identifier the handler still returns normally, the notification for
    [shots_fired] has returned normally before the call task is even
    created, the call task alone ends with the error, and every other task
    of the cycle returns normally. *)
Theorem missing_trunk_id_contained (w : World) :
  (∀ transcript room',
     _dispatch_outbound_call w transcript room' = ([], Raise missing_trunk_id) ↔
     trunk_id_configured w = false) ∧
  (∀ transcript room',
     trunk_id_configured w = true →
     ∃ tr r, _dispatch_outbound_call w transcript room' = (NewLiveKitAPI :: tr, r)) ∧
  (∀ reader identity text,
     trunk_id_configured w = false →
     reader_read_all reader = Return text →
     shots_fired ∈ _extract_trigger_events text →
     let run := _handle_text_stream room w reader identity in
     let notify := _send_event_to_chain w shots_fired text room in
     let call := dispatch_outbound_call text (Some room) in
     run.2 = Return tt ∧
     notify.2 = Return tt ∧
     (∃ before,
        run.1 = before ++ [Await (send_event_to_chain shots_fired text room)] ++
                notify.1 ++ [CreateTask call]) ∧
     run_coro room w call = ([], Raise missing_trunk_id) ∧
     (∀ c, c ∈ created_tasks run.1 → c ≠ call →
           (run_coro room w c).2 = Return tt)).
Proof.
  split; [|split].
  - intros transcript room'. split; [|apply dispatch_unconfigured].
    intros Heq. destruct (trunk_id_configured w) eqn:Hconf; [|done].
    destruct (dispatch_configured w transcript room' Hconf) as (tr & r & Heq').
    rewrite Heq' in Heq. discriminate.
  - intros transcript room'. apply dispatch_configured.
  - intros reader identity text Hconf Hread Hshots. cbv zeta.
    pose proof (truthy_of_match _ _ Hshots) as Htext.
    split; [apply handle_text_stream_returns|].
    destruct (send_event_to_chain_plain w shots_fired text room)
      as (tr & Hsend & _).
    split; [by rewrite Hsend|]. split; [|split].
    + destruct (handle_text_stream_eq room w reader identity text)
        as (received & -> & _); [done..|].
      rewrite (bool_decide_eq_true_2 _ Hshots). cbn [fst].
      match goal with
      | |- ∃ before, ?p ++ ?l ++ [?x; ?y] ++ ?rest = _ => exists (p ++ l ++ [x])
      end.
      by rewrite <- !app_assoc.
    + unfold run_coro. by rewrite dispatch_unconfigured.
    + intros c Hc Hne.
      apply text_stream_created_tasks with (text := text) in Hc
        as [[event ->] | ->]; [|done..].
      unfold run_coro.
      by destruct (send_event_to_chain_plain w event text room) as (? & -> & _).
Qed.
End call_failure.

(** *** The participant identity *)

Lemma py_inj (s1 s2 : string) : py s1 = py s2 → s1 = s2.
Proof.
  unfold py. intros Heq.
  assert (Inj (=) (=) N_of_ascii) as Hinj.
  { intros a b Hab. by rewrite <- (ascii_N_embedding a), Hab, ascii_N_embedding. }
  apply (inj (fmap N_of_ascii)) in Heq.
  by rewrite <- (string_of_list_ascii_of_string s1), Heq,
    string_of_list_ascii_of_string.
Qed.

(** C9, as the code has it: the participant identity is [sip-alert-]
    followed by the clock reading cut to whole seconds, so two attempts have
    the same identity exactly when their clock readings fall in the same
    whole second. *)
Theorem participant_identity_by_second (w1 w2 : World) :
  new_participant_identity w1 = new_participant_identity w2 ↔
  int_of_float (time_time w1) = int_of_float (time_time w2).
Proof.
  unfold new_participant_identity, str_of_int. split; [|by intros ->].
  intros Heq%app_inv_head%py_inj. by apply (inj pretty).
Qed.

(** *** The session *)

Section session_properties.
Context `{UnicodeData}.
Variable room : str.

Lemma create_tasks_finished (cs : list coro) (s : Session) :
  finished (create_tasks cs s) = finished s.
Proof. done. Qed.

Lemma task_runs_finished (task : nat) (w : World) (s : Session) (c : coro) :
  lookup_task task s = Some c →
  finished (task_runs room task w s) =
  finished s ++ [(task, (run_coro room w c).2)].
Proof.
  intros Hc. unfold task_runs. rewrite Hc.
  by destruct (run_coro room w c) as [tr r].
Qed.

(** C8, as the code has it: the disconnect signal sets the event and nothing
    else; it cancels no task, and every task in flight can still run to its
    end.  [entrypoint] returns as soon as it is resumed, with the tasks
    still in flight: it does not wait for them.  The handlers do not look at
    the signal: an input after it creates the same tasks as before it. *)
Theorem disconnect_returns_without_drain (s : Session) :
  let s' := step room s Disconnected in
  let s'' := step room s' EntrypointResumes in
  disconnected s' = true ∧
  in_flight s' = in_flight s ∧ finished s' = finished s ∧
  active_text_tasks s' = active_text_tasks s ∧
  returned s'' = true ∧ in_flight s'' = in_flight s ∧
  (∀ task c w,
     lookup_task task s = Some c →
     (task, (run_coro room w c).2) ∈ finished (step room s' (TaskRuns task w))) ∧
  (∀ e, is_input e = true → in_flight (step room s' e) = in_flight (step room s e)).
Proof.
  cbv zeta. repeat split.
  - simpl. apply orb_true_r.
  - intros task c w Hc. simpl.
    rewrite (task_runs_finished task w (_on_disconnected s) c) by done.
    apply elem_of_app. right. by apply list_elem_of_singleton.
  - intros [reader identity|transcript| | |] ?; try done.
    unfold step. by destruct (_on_transcript room transcript).
Qed.
End session_properties.

(** * Concrete runs *)

(** C1 on the text of the specification: two phrases of one kind give the
    kind once. *)
Example extract_synonyms :
  @_extract_trigger_events basic_latin (py "Weapon DRAWN! weapon out, man down") =
  {[py "weapon_drawn"; py "man_down"]}.
Proof. apply (bool_decide_unpack _). by vm_compute. Qed.

(** The claim C2 fails on the transcript channel: the final transcript
    [drop the weapon, shots fired] is classified, [shots_fired] is matched
    and notified once, and no outbound call is attempted. *)
Lemma final_transcript_places_no_call :
  shots_fired ∈ @_extract_trigger_events basic_latin
                  (py "drop the weapon, shots fired") ∧
  classifications
    (@_on_transcript basic_latin (py "room")
       (final_transcript (py "drop the weapon, shots fired"))).1 =
    [py "drop the weapon, shots fired"] ∧
  notify_calls
    (@_on_transcript basic_latin (py "room")
       (final_transcript (py "drop the weapon, shots fired"))).1 =
    [shots_fired] ∧
  call_attempts
    (@_on_transcript basic_latin (py "room")
       (final_transcript (py "drop the weapon, shots fired"))).1 = [].
Proof.
  split; [apply (bool_decide_unpack _); by vm_compute|].
  by vm_compute.
Qed.

(** The claim C9 fails within one second: two attempts whose clock readings
    differ send requests with the same participant identity. *)
Lemma participant_identity_collision :
  ¬ (time_time early_attempt == time_time late_attempt)%Q ∧
  participant_identity <$>
    sip_requests (_dispatch_outbound_call early_attempt (py "shots fired")
                    (Some (py "room"))).1 = [py "sip-alert-1700000000"] ∧
  participant_identity <$>
    sip_requests (_dispatch_outbound_call late_attempt (py "shots fired")
                    (Some (py "room"))).1 = [py "sip-alert-1700000000"].
Proof.
  split; [|by vm_compute].
  unfold Qeq. simpl. lia.
Qed.

(** The claim C8 fails on both counts: after the disconnect signal a final
    transcript still creates a task, and [entrypoint] returns while a task
    is in flight. *)
Lemma no_drain_on_disconnect :
  ¬ @no_task_after_disconnect basic_latin (py "room") ∧
  ¬ @waits_for_in_flight basic_latin (py "room").
Proof.
  split.
  - intros Hclaim.
    specialize (Hclaim (step (H:=basic_latin) (py "room") session_start Disconnected)
                  (Transcribed (final_transcript (py "man down")))
                  eq_refl eq_refl).
    vm_compute in Hclaim. discriminate.
  - intros Hclaim.
    specialize (Hclaim [TextStream (sample_reader (Return (py "shots fired")))
                          (py "camera");
                        Disconnected; EntrypointResumes] eq_refl).
    vm_compute in Hclaim. discriminate.
Qed.

(** C2 on the example of the specification, on both channels. *)
Lemma shots_fired_dispatch_witness :
  (classifications
     (@_handle_text_stream basic_latin (py "room") quiet_world
        (sample_reader (Return shots_text)) (py "camera")).1 = [shots_text] ∧
   notify_count shots_fired
     (@_handle_text_stream basic_latin (py "room") quiet_world
        (sample_reader (Return shots_text)) (py "camera")).1 = 1 ∧
   call_attempts
     (@_handle_text_stream basic_latin (py "room") quiet_world
        (sample_reader (Return shots_text)) (py "camera")).1 =
     [dispatch_outbound_call shots_text (Some (py "room"))]) ∧
  (classifications
     (@_on_transcript basic_latin (py "room") (final_transcript shots_text)).1 =
     [shots_text] ∧
   notify_count shots_fired
     (@_on_transcript basic_latin (py "room") (final_transcript shots_text)).1 = 1 ∧
   call_attempts
     (@_on_transcript basic_latin (py "room") (final_transcript shots_text)).1 = []).
Proof.
  destruct (@shots_fired_dispatch basic_latin (py "room") quiet_world)
    as [Hstream Htranscript].
  split.
  - apply (Hstream (sample_reader (Return shots_text)) (py "camera") shots_text).
    + reflexivity.
    + apply (bool_decide_unpack _). vm_compute. exact I.
  - apply (Htranscript (final_transcript shots_text)).
    + reflexivity.
    + apply (bool_decide_unpack _). vm_compute. exact I.
Defined.

(** C4 on the example of the specification: the payload
    [camera blocked, camera obscured] gets one notification for
    [camera_blocked] and no call. *)
Lemma other_events_notified_once_witness :
  notify_count (py "camera_blocked")
    (@_handle_text_stream basic_latin (py "room") quiet_world
       (sample_reader (Return camera_text)) (py "camera")).1 = 1 ∧
  call_attempts
    (@_handle_text_stream basic_latin (py "room") quiet_world
       (sample_reader (Return camera_text)) (py "camera")).1 =
    if bool_decide (shots_fired ∈ @_extract_trigger_events basic_latin camera_text)
    then [dispatch_outbound_call camera_text (Some (py "room"))] else [].
Proof.
  destruct (@other_events_notified_once basic_latin (py "room") quiet_world)
    as [Hstream _].
  apply (Hstream (sample_reader (Return camera_text)) (py "camera") camera_text
           (py "camera_blocked")).
  - reflexivity.
  - apply (bool_decide_unpack _). vm_compute. exact I.
  - apply (bool_decide_unpack _). vm_compute. exact I.
Defined.

(** C3 on the example of the specification: the interim transcript
    [shots fired] creates no task, and a final transcript of blanks does
    nothing. *)
Lemma on_transcript_filters_witness :
  created_tasks
    (@_on_transcript basic_latin (py "room")
       (interim_transcript (py "shots fired"))).1 = [] ∧
  @_on_transcript basic_latin (py "room") (final_transcript (py "   ")) =
    ([], Return tt).
Proof.
  split.
  - destruct (@on_transcript_filters basic_latin (py "room")
                (interim_transcript (py "shots fired"))) as [Hinterim _].
    apply Hinterim. reflexivity.
  - destruct (@on_transcript_filters basic_latin (py "room")
                (final_transcript (py "   "))) as [_ Hblank].
    apply Hblank. apply (bool_decide_unpack _). vm_compute. exact I.
Defined.

(** C5 on the example of the specification: a status of 500 is logged as a
    failure, and the coroutine returns normally. *)
Lemma send_event_to_chain_contained_witness :
  (_send_event_to_chain failing_sink shots_fired shots_text (py "room")).2 =
    Return tt ∧
  logs_failure
    (_send_event_to_chain failing_sink shots_fired shots_text (py "room")).1 ∧
  ¬ logs_success
    (_send_event_to_chain failing_sink shots_fired shots_text (py "room")).1.
Proof.
  destruct (send_event_to_chain_contained failing_sink shots_fired shots_text
              (py "room")) as (Hret & _ & _ & Hfail & _).
  split; [exact Hret|].
  apply (Hfail 500%Z (py "{}")).
  - reflexivity.
  - reflexivity.
  - lia.
Defined.

(** C6 on the example of the specification: with no trunk identifier the
    call task of a [shots_fired] payload ends with the error, while the
    handler and the notification return normally. *)
Lemma missing_trunk_id_contained_witness :
  (@_handle_text_stream basic_latin (py "room") quiet_world
     (sample_reader (Return shots_text)) (py "camera")).2 = Return tt ∧
  (_send_event_to_chain quiet_world shots_fired shots_text (py "room")).2 =
    Return tt ∧
  @run_coro basic_latin (py "room") quiet_world
    (dispatch_outbound_call shots_text (Some (py "room"))) =
    ([], Raise missing_trunk_id).
Proof.
  destruct (@missing_trunk_id_contained basic_latin (py "room") quiet_world)
    as (_ & _ & Hcycle).
  destruct (Hcycle (sample_reader (Return shots_text)) (py "camera") shots_text)
    as (Hret & Hnotify & _ & Hcall & _).
  - reflexivity.
  - reflexivity.
  - apply (bool_decide_unpack _). vm_compute. exact I.
  - exact (conj Hret (conj Hnotify Hcall)).
Defined.

(** C8 on a run: a text-stream task created before the disconnect signal
    still runs to its end after it. *)
Lemma disconnect_returns_without_drain_witness :
  (0, (@run_coro basic_latin (py "room") quiet_world
         (handle_text_stream (sample_reader (Return shots_text)) (py "camera"))).2) ∈
  finished
    (@step basic_latin (py "room")
       (@step basic_latin (py "room")
          (@run basic_latin (py "room")
             [TextStream (sample_reader (Return shots_text)) (py "camera")])
          Disconnected)
       (TaskRuns 0 quiet_world)).
Proof.
  destruct (@disconnect_returns_without_drain basic_latin (py "room")
              (@run basic_latin (py "room")
                 [TextStream (sample_reader (Return shots_text)) (py "camera")]))
    as (_ & _ & _ & _ & _ & _ & Hruns & _).
  apply Hruns. reflexivity.
Defined.

(** * Further properties of the code *)

(** ** The URL of the notification *)

Lemma str_rstrip_char_spec (ch : N) (s : str) :
  ∃ n, s = str_rstrip_char ch s ++ replicate n ch ∧
       last (str_rstrip_char ch s) ≠ Some ch.
Proof.
  induction s as [|c s (n & Hs & Hlast)]; [by exists 0|].
  simpl. destruct (str_rstrip_char ch s) as [|x r] eqn:Hr.
  - case_bool_decide as Hc.
    + subst c. exists (S n). split; [by rewrite Hs at 1|done].
    + exists n. split; [by rewrite Hs at 1|]. simpl. congruence.
  - exists n. split; [by rewrite Hs at 1|]. done.
Qed.

Lemma str_rstrip_char_replicate (ch : N) (n : nat) :
  str_rstrip_char ch (replicate n ch) = [].
Proof.
  induction n as [|n IH]; [done|]. simpl. rewrite IH.
  by rewrite bool_decide_eq_true_2.
Qed.

Lemma str_rstrip_char_app_replicate (ch : N) (s : str) (n : nat) :
  str_rstrip_char ch (s ++ replicate n ch) = str_rstrip_char ch s.
Proof.
  induction s as [|c s IH]; [apply str_rstrip_char_replicate|].
  simpl. by rewrite IH.
Qed.

(** X1: the URL of the notification is the base URL without its trailing
    slashes, followed by [/api/events]; base URLs that differ in trailing
    slashes only give the same URL. *)
Theorem events_url_trailing_slashes (w : World) :
  (∃ base n,
     EVENTS_API_BASE_URL w = base ++ replicate n 47%N ∧
     last base ≠ Some 47%N ∧
     events_url w = base ++ EVENTS_API_PATH) ∧
  (∀ w' n,
     EVENTS_API_BASE_URL w' = EVENTS_API_BASE_URL w ++ replicate n 47%N →
     events_url w' = events_url w).
Proof.
  split.
  - destruct (str_rstrip_char_spec 47 (EVENTS_API_BASE_URL w)) as (n & Hs & Hlast).
    by exists (str_rstrip_char 47 (EVENTS_API_BASE_URL w)), n.
  - intros w' n Hw'. unfold events_url.
    by rewrite Hw', str_rstrip_char_app_replicate.
Qed.

Lemma base_url_truthy (w : World) :
  truthy (EVENTS_API_BASE_URL w) = false ↔
  getenv w "CLEARANCE_API_BASE_URL" = Some [].
Proof.
  unfold EVENTS_API_BASE_URL.
  destruct (getenv w "CLEARANCE_API_BASE_URL") as [[|c s]|]; simpl; split;
    try done; discriminate.
Qed.

(** X2: the notification is skipped, with one warning and no request,
    exactly when [CLEARANCE_API_BASE_URL] is set to the empty string; when
    the variable is not set at all the request goes to the default
    endpoint. *)
Theorem notify_skipped_iff_empty_base_url (w : World)
    (event transcript room : str) :
  let run := _send_event_to_chain w event transcript room in
  (http_posts run.1 = [] ↔ getenv w "CLEARANCE_API_BASE_URL" = Some []) ∧
  (getenv w "CLEARANCE_API_BASE_URL" = Some [] →
   run = ([Log WARNING "Missing CLEARANCE_API_BASE_URL; skipping event publish." []],
          Return tt)) ∧
  (getenv w "CLEARANCE_API_BASE_URL" = None →
   http_posts run.1 =
     [(py "https://clearance-phi.vercel.app/api/events",
       event_payload event transcript room)]).
Proof.
  cbv zeta. rewrite send_event_to_chain_eq. cbv zeta.
  assert (∀ tail, http_posts (HttpPost (events_url w)
                                (event_payload event transcript room) ::
             match post_event_sync w (events_url w)
                     (event_payload event transcript room) with
             | Return (status, body) =>
                 if (status >=? 300)%Z
                 then [Log WARNING "Event publish failed (%s): %s"
                         [VInt status; VStr body]]
                 else [Log INFO "Event published (%s): %s"
                         [VInt status; VStr body]]
             | Raise exc => [Log WARNING "Event publish error: %s" [VExc exc]]
             end ++ tail) =
          (events_url w, event_payload event transcript room) :: http_posts tail)
    as Hposts.
  { intros tail.
    by destruct (post_event_sync w _ _) as [[status body]|exc];
      [destruct (status >=? 300)%Z|]. }
  specialize (Hposts []). rewrite app_nil_r in Hposts.
  destruct (truthy (EVENTS_API_BASE_URL w)) eqn:Hurl.
  - assert (getenv w "CLEARANCE_API_BASE_URL" ≠ Some []) as Hne.
    { intros Hempty%base_url_truthy. congruence. }
    cbn [fst]. rewrite Hposts. split; [split; [discriminate|done]|].
    split; [done|]. intros Hnone. do 2 f_equal.
    unfold events_url, EVENTS_API_BASE_URL. rewrite Hnone. by vm_compute.
  - apply base_url_truthy in Hurl. split; [done|]. split; [done|].
    intros Hnone. congruence.
Qed.

(** ** The outbound call *)

Lemma dispatch_outbound_call_eq (w : World) (transcript : str)
    (room : option str) :
  _dispatch_outbound_call w transcript room =
  match getenv w "LIVEKIT_SIP_TRUNK_ID" with
  | Some trunk_id =>
      if truthy trunk_id then
        let request := call_request w trunk_id room in
        match new_LiveKitAPI w with
        | Raise e => ([NewLiveKitAPI], Raise e)
        | Return _ =>
            match aclose w, create_sip_participant w request with
            | Raise e', _ =>
                ([NewLiveKitAPI; CreateSipParticipant request; CloseLiveKitAPI],
                 Raise e')
            | Return _, Raise e =>
                ([NewLiveKitAPI; CreateSipParticipant request; CloseLiveKitAPI],
                 Raise e)
            | Return _, Return participant =>
                ([NewLiveKitAPI; CreateSipParticipant request; CloseLiveKitAPI;
                  Log WARNING
                    "Outbound call dispatched to %s (room=%s, participant=%s) for: %s"
                    [VStr OUTBOUND_PHONE_NUMBER; VStr (room_name request);
                     VStr (participant_identity request); VStr transcript]],
                 Return [("participant", participant)])
            end
        end
      else ([], Raise missing_trunk_id)
  | None => ([], Raise missing_trunk_id)
  end.
Proof.
  unfold _dispatch_outbound_call.
  destruct (getenv w "LIVEKIT_SIP_TRUNK_ID") as [trunk_id|]; [|done].
  destruct (truthy trunk_id); [|done]. cbv zeta.
  fold (call_request w trunk_id room).
  cbn [emit outcome mbind M_bind mret M_ret try_finally app].
  destruct (new_LiveKitAPI w) as [[]|e]; [|done].
  destruct (create_sip_participant w _) as [p|e], (aclose w) as [[]|e']; done.
Qed.

(** X3: once the API client exists it is closed, exactly once and right
    after the request, whether the request succeeds or raises; when the
    trunk identifier is missing or the client cannot be made, nothing is
    requested and nothing is closed. *)
Theorem dispatch_closes_api (w : World) (transcript : str) (room : option str) :
  let tr := (_dispatch_outbound_call w transcript room).1 in
  (trunk_id_configured w = true → new_LiveKitAPI w = Return tt →
   ∃ request tail,
     tr = [NewLiveKitAPI; CreateSipParticipant request; CloseLiveKitAPI] ++ tail ∧
     forallb is_log tail = true) ∧
  ((trunk_id_configured w = false ∨ ∃ e, new_LiveKitAPI w = Raise e) →
   (CloseLiveKitAPI ∉ tr) ∧ sip_requests tr = []).
Proof.
  cbv zeta. rewrite dispatch_outbound_call_eq. unfold trunk_id_configured.
  destruct (getenv w "LIVEKIT_SIP_TRUNK_ID") as [trunk_id|].
  - destruct (truthy trunk_id).
    + cbv zeta. split.
      * intros _ ->.
        destruct (aclose w) as [[]|e2],
          (create_sip_participant w (call_request w trunk_id room)) as [p|e];
          do 2 eexists; (split; [reflexivity|done]).
      * intros [?|[e ->]]; [done|]. split; [|done].
        intros Hin. apply list_elem_of_singleton in Hin. discriminate.
    + split; [done|]. intros _. split; [apply not_elem_of_nil|done].
  - split; [done|]. intros _. split; [apply not_elem_of_nil|done].
Qed.

Lemma not_logs_dispatched_short (request : CreateSIPParticipantRequest) :
  ¬ logs_dispatched
      [NewLiveKitAPI; CreateSipParticipant request; CloseLiveKitAPI].
Proof.
  intros [args Hin].
  repeat (apply elem_of_cons in Hin as [Hin|Hin]; [discriminate|]).
  by apply elem_of_nil in Hin.
Qed.

(** X4: the call coroutine returns the participant exactly when the trunk
    identifier is set, the client is made, the request succeeds and the
    client closes; the record of a placed call is logged exactly then.  An
    exception of the request comes out when the client closes normally, and
    an exception of closing comes out in its place otherwise. *)
Theorem dispatch_outcome (w : World) (transcript : str) (room : option str) :
  let run := _dispatch_outbound_call w transcript room in
  (∀ v, run.2 = Return v ↔
        ∃ trunk_id p,
          getenv w "LIVEKIT_SIP_TRUNK_ID" = Some trunk_id ∧
          truthy trunk_id = true ∧
          new_LiveKitAPI w = Return tt ∧
          create_sip_participant w (call_request w trunk_id room) = Return p ∧
          aclose w = Return tt ∧
          v = [("participant", p)]) ∧
  (logs_dispatched run.1 ↔ ∃ v, run.2 = Return v) ∧
  (∀ exc, trunk_id_configured w = true → new_LiveKitAPI w = Return tt →
          aclose w = Raise exc → run.2 = Raise exc) ∧
  (∀ trunk_id exc,
     getenv w "LIVEKIT_SIP_TRUNK_ID" = Some trunk_id → truthy trunk_id = true →
     new_LiveKitAPI w = Return tt →
     create_sip_participant w (call_request w trunk_id room) = Raise exc →
     aclose w = Return tt → run.2 = Raise exc).
Proof.
  cbv zeta. rewrite dispatch_outbound_call_eq. unfold trunk_id_configured.
  destruct (getenv w "LIVEKIT_SIP_TRUNK_ID") as [trunk_id|];
    [destruct (truthy trunk_id) eqn:Htrunk|].
  - cbv zeta.
    destruct (new_LiveKitAPI w) as [[]|e0].
    + destruct (aclose w) as [[]|e2],
        (create_sip_participant w (call_request w trunk_id room)) as [p|e]
        eqn:Hcreate; cbn [fst snd].
      * split; [|split; [|split]].
        -- intros v. split.
           ++ intros [= <-]. by exists trunk_id, p.
           ++ intros (t & p2 & [= <-] & _ & _ & Hp & _ & ->).
              rewrite Hcreate in Hp. by injection Hp as ->.
        -- split; [by eexists|]. intros _. eexists.
           do 3 (apply elem_of_cons; right). apply elem_of_cons. by left.
        -- done.
        -- intros t exc [= <-] _ _ He _. congruence.
      * split; [|split; [|split]].
        -- intros v. split; [done|].
           intros (t & p2 & [= <-] & _ & _ & Hp & _). congruence.
        -- split; [by intros ?%not_logs_dispatched_short | by intros [v ?]].
        -- done.
        -- intros t exc [= <-] _ _ He _. congruence.
      * split; [|split; [|split]].
        -- intros v. split; [done|]. by intros (t & p2 & _ & _ & _ & _ & ? & _).
        -- split; [by intros ?%not_logs_dispatched_short | by intros [v ?]].
        -- by intros exc _ _ [= ->].
        -- done.
      * split; [|split; [|split]].
        -- intros v. split; [done|]. by intros (t & p2 & _ & _ & _ & _ & ? & _).
        -- split; [by intros ?%not_logs_dispatched_short | by intros [v ?]].
        -- by intros exc _ _ [= ->].
        -- done.
    + cbn [fst snd]. split; [|split; [|split]].
      * intros v. split; [done|]. by intros (t & p2 & _ & _ & ? & _).
      * split; [|by intros [v ?]]. intros [args Hin].
        apply list_elem_of_singleton in Hin. discriminate.
      * done.
      * done.
  - cbn [fst snd]. split; [|split; [|split]].
    + intros v. split; [done|].
      intros (t & p2 & [= <-] & ? & _). congruence.
    + split; [|by intros [v ?]]. by intros [args ?%elem_of_nil].
    + done.
    + intros t exc [= <-]. congruence.
  - cbn [fst snd]. split; [|split; [|split]].
    + intros v. split; [done|]. by intros (t & p2 & ? & _).
    + split; [|by intros [v ?]]. by intros [args ?%elem_of_nil].
    + done.
    + done.
Qed.

Lemma dispatch_sip_requests (w : World) (transcript : str) (room : option str) :
  sip_requests (_dispatch_outbound_call w transcript room).1 =
  match getenv w "LIVEKIT_SIP_TRUNK_ID", new_LiveKitAPI w with
  | Some trunk_id, Return _ =>
      if truthy trunk_id then [call_request w trunk_id room] else []
  | _, _ => []
  end.
Proof.
  rewrite dispatch_outbound_call_eq.
  destruct (getenv w "LIVEKIT_SIP_TRUNK_ID") as [trunk_id|]; [|done].
  destruct (truthy trunk_id); [|by destruct (new_LiveKitAPI w)]. cbv zeta.
  destruct (new_LiveKitAPI w) as [[]|e0]; [|done].
  by destruct (aclose w) as [[]|e2],
    (create_sip_participant w (call_request w trunk_id room)) as [p|e].
Qed.

Lemma dispatch_http_posts (w : World) (transcript : str) (room : option str) :
  http_posts (_dispatch_outbound_call w transcript room).1 = [].
Proof.
  rewrite dispatch_outbound_call_eq.
  destruct (getenv w "LIVEKIT_SIP_TRUNK_ID") as [trunk_id|]; [|done].
  destruct (truthy trunk_id); [|done]. cbv zeta.
  destruct (new_LiveKitAPI w) as [[]|e0]; [|done].
  by destruct (aclose w) as [[]|e2],
    (create_sip_participant w (call_request w trunk_id room)) as [p|e].
Qed.

Lemma dispatch_created_tasks (w : World) (transcript : str) (room : option str) :
  created_tasks (_dispatch_outbound_call w transcript room).1 = [] ∧
  classifications (_dispatch_outbound_call w transcript room).1 = [].
Proof.
  rewrite dispatch_outbound_call_eq.
  destruct (getenv w "LIVEKIT_SIP_TRUNK_ID") as [trunk_id|]; [|done].
  destruct (truthy trunk_id); [|done]. cbv zeta.
  destruct (new_LiveKitAPI w) as [[]|e0]; [|done].
  by destruct (aclose w) as [[]|e2],
    (create_sip_participant w (call_request w trunk_id room)) as [p|e].
Qed.

(** X5: a call attempt makes at most one request to the LiveKit API; the
    request names the configured, non-empty trunk identifier, the fixed
    number, noise suppression and no waiting for the answer, and carries the
    participant identity of the attempt. *)
Theorem call_request_fields (w : World) (transcript : str) (room : option str) :
  let requests := sip_requests (_dispatch_outbound_call w transcript room).1 in
  length requests ≤ 1 ∧
  Forall (λ request,
            getenv w "LIVEKIT_SIP_TRUNK_ID" = Some (sip_trunk_id request) ∧
            truthy (sip_trunk_id request) = true ∧
            sip_call_to request = OUTBOUND_PHONE_NUMBER ∧
            participant_identity request = new_participant_identity w ∧
            krisp_enabled request = true ∧
            wait_until_answered request = false) requests.
Proof.
  cbv zeta. rewrite dispatch_sip_requests.
  destruct (getenv w "LIVEKIT_SIP_TRUNK_ID") as [trunk_id|];
    [|split; [simpl; lia | constructor]].
  destruct (new_LiveKitAPI w) as [[]|e0]; [|split; [simpl; lia | constructor]].
  destruct (truthy trunk_id) eqn:Htrunk; [|split; [simpl; lia | constructor]].
  split; [simpl; lia|]. by repeat constructor.
Qed.

(** X6: the call is placed in the room of the session whenever that name is
    not empty, from the text-stream task and from the tool of the agent that
    [entrypoint] set up alike; with an empty room name, and from the tool of
    an agent that was given no room, it is placed in the room named by
    [LIVEKIT_SIP_ROOM_NAME], or in [sip-alerts] when that variable is not
    set. *)
Theorem call_room (w : World) (transcript room : str) :
  let fallback := default (py "sip-alerts") (getenv w "LIVEKIT_SIP_ROOM_NAME") in
  TranscriberAgent_dispatch_outbound_call (entrypoint_agent room) w transcript =
    _dispatch_outbound_call w transcript (Some room) ∧
  Forall (λ request, room_name request = if truthy room then room else fallback)
    (sip_requests (_dispatch_outbound_call w transcript (Some room)).1) ∧
  Forall (λ request, room_name request = fallback)
    (sip_requests
       (TranscriberAgent_dispatch_outbound_call TranscriberAgent_init w
          transcript).1).
Proof.
  cbv zeta. split; [done|].
  unfold TranscriberAgent_dispatch_outbound_call. rewrite !dispatch_sip_requests.
  destruct (getenv w "LIVEKIT_SIP_TRUNK_ID") as [trunk_id|];
    [|split; constructor].
  destruct (new_LiveKitAPI w) as [[]|e0]; [|split; constructor].
  destruct (truthy trunk_id); [|split; constructor].
  split; by repeat constructor.
Qed.

(** ** The handlers on every input *)

Section handler_characterisation.
Context `{UnicodeData}.
Variable room : str.

Lemma handle_text_stream_empty (w : World) (reader : TextStreamReader)
    (identity : str) :
  reader_read_all reader = Return [] →
  ∃ received,
    is_log received = true ∧
    _handle_text_stream room w reader identity =
      ([received; ReadAll (reader_info reader)], Return tt).
Proof.
  intros Hread. unfold _handle_text_stream. cbv zeta. rewrite Hread.
  eexists (Log INFO _ _). split; reflexivity.
Qed.

Lemma handle_text_stream_failed (w : World) (reader : TextStreamReader)
    (identity : str) (exc : exn) :
  reader_read_all reader = Raise exc →
  ∃ received,
    is_log received = true ∧
    _handle_text_stream room w reader identity =
      ([received; ReadAll (reader_info reader);
        Log WARNING "Text stream read failed: %s" [VExc exc]], Return tt).
Proof.
  intros Hread. unfold _handle_text_stream. cbv zeta. rewrite Hread.
  eexists (Log INFO _ _). split; reflexivity.
Qed.

(** The actions of the handler on a payload that was read and is not
    empty, with the actions [notify] of the awaited notification. *)
Lemma handle_text_stream_shape (w : World) (reader : TextStreamReader)
    (identity text : str) :
  reader_read_all reader = Return text → truthy text = true →
  ∃ lvl fmt args notify,
    _send_event_to_chain w shots_fired text room = (notify, Return tt) ∧
    forallb is_plain notify = true ∧
    (_handle_text_stream room w reader identity).1 =
      [Log lvl fmt args; ReadAll (reader_info reader);
       Log INFO "Text stream content: %s" [VStr text]; Classify text] ++
      (elements (_extract_trigger_events text) ≫= λ event,
         if bool_decide (event = shots_fired) then []
         else [CreateTask (send_event_to_chain event text room)]) ++
      (if bool_decide (shots_fired ∈ _extract_trigger_events text) then
         [Log WARNING "Audio trigger detected in text stream (room=%s): %s"
            [VStr room; VStr text];
          Await (send_event_to_chain shots_fired text room)] ++
         notify ++ [CreateTask (dispatch_outbound_call text (Some room))]
       else []).
Proof.
  intros Hread Htext.
  destruct (handle_text_stream_eq room w reader identity text)
    as (received & -> & Hlog); [done..|].
  destruct received as [lvl fmt args| | | | | | | |]; try discriminate.
  destruct (send_event_to_chain_plain w shots_fired text room)
    as (notify & Hsend & Hplain).
  exists lvl, fmt, args, notify. by rewrite Hsend.
Qed.

Lemma loop_classifications (text : str) (l : list str) :
  classifications (l ≫= λ event,
      if bool_decide (event = shots_fired) then []
      else [CreateTask (send_event_to_chain event text room)]) = [] ∧
  http_posts (l ≫= λ event,
      if bool_decide (event = shots_fired) then []
      else [CreateTask (send_event_to_chain event text room)]) = [] ∧
  sip_requests (l ≫= λ event,
      if bool_decide (event = shots_fired) then []
      else [CreateTask (send_event_to_chain event text room)]) = [].
Proof.
  unfold classifications, http_posts, sip_requests.
  induction l as [|x l (IH1 & IH2 & IH3)]; [done|].
  rewrite bind_cons, !omap_app, IH1, IH2, IH3. by case_bool_decide.
Qed.

Lemma loop_created_tasks (text : str) (l : list str) :
  created_tasks (l ≫= λ event,
      if bool_decide (event = shots_fired) then []
      else [CreateTask (send_event_to_chain event text room)]) =
  (λ event, send_event_to_chain event text room) <$>
    filter (λ e, e ≠ shots_fired) l.
Proof.
  induction l as [|x l IH]; [done|].
  rewrite bind_cons, created_tasks_app, IH. case_bool_decide.
  - by rewrite filter_cons_False by (intros Hne; by apply Hne).
  - by rewrite filter_cons_True by done.
Qed.

Lemma classifications_app (tr1 tr2 : list action) :
  classifications (tr1 ++ tr2) = classifications tr1 ++ classifications tr2.
Proof. apply omap_app. Qed.

Lemma http_posts_app (tr1 tr2 : list action) :
  http_posts (tr1 ++ tr2) = http_posts tr1 ++ http_posts tr2.
Proof. apply omap_app. Qed.

Lemma sip_requests_app (tr1 tr2 : list action) :
  sip_requests (tr1 ++ tr2) = sip_requests tr1 ++ sip_requests tr2.
Proof. apply omap_app. Qed.

(** X7: a text is classified at most once, and as it is: the handler of a
    text stream classifies the payload exactly when it was read and is not
    empty; the handler of the transcripts classifies the stripped text
    exactly when the event is final and the stripped text is not empty. *)
Theorem classified_once (w : World) (reader : TextStreamReader)
    (identity : str) (transcript : UserInputTranscribed) :
  classifications (_handle_text_stream room w reader identity).1 =
    match reader_read_all reader with
    | Return text => if truthy text then [text] else []
    | Raise _ => []
    end ∧
  classifications (_on_transcript room transcript).1 =
    let text := str_strip (default [] (ev_transcript transcript)) in
    if truthy text && default false (ev_is_final transcript) then [text] else [].
Proof.
  split.
  - destruct (reader_read_all reader) as [text|exc] eqn:Hread.
    + destruct (truthy text) eqn:Htext.
      * destruct (handle_text_stream_shape w reader identity text)
          as (lvl & fmt & args & notify & _ & Hplain & ->); [done..|].
        apply plain_actions in Hplain as (_ & _ & _ & Hcls & _).
        rewrite !classifications_app.
        destruct (loop_classifications text (elements (_extract_trigger_events text)))
          as (-> & _). case_bool_decide; [|done].
        by rewrite !classifications_app, Hcls.
      * destruct text; [|done].
        by destruct (handle_text_stream_empty w reader identity Hread)
          as ([] & ? & ->).
    + by destruct (handle_text_stream_failed w reader identity exc Hread)
        as ([] & ? & ->).
  - rewrite on_transcript_eq. cbv zeta.
    destruct (truthy _); [|done].
    destruct (default false _); [|done]. cbn [fst andb].
    unfold classifications. cbn [omap list_omap]. f_equal.
    induction (elements _) as [|x l IH]; [done|].
    by rewrite bind_cons, omap_app, IH.
Qed.

(** X8: the notifications of a cycle are the matched event kinds, each once
    and no other: on a text stream those of the payload that was read (none
    when reading fails), on a transcript those of the stripped text when the
    event is final (none otherwise). *)
Theorem notify_calls_are_matched_events (w : World) (reader : TextStreamReader)
    (identity : str) (transcript : UserInputTranscribed) :
  notify_calls (_handle_text_stream room w reader identity).1 ≡ₚ
    match reader_read_all reader with
    | Return text => elements (_extract_trigger_events text)
    | Raise _ => []
    end ∧
  notify_calls (_on_transcript room transcript).1 =
    if default false (ev_is_final transcript)
    then elements (_extract_trigger_events
                     (str_strip (default [] (ev_transcript transcript))))
    else [].
Proof.
  split.
  - destruct (reader_read_all reader) as [text|exc] eqn:Hread.
    + destruct (truthy text) eqn:Htext.
      * by apply text_stream_notify_calls.
      * destruct text; [|done].
        rewrite extract_trigger_events_nil, elements_empty.
        by destruct (handle_text_stream_empty w reader identity Hread)
          as ([] & ? & ->).
    + by destruct (handle_text_stream_failed w reader identity exc Hread)
        as ([] & ? & ->).
  - rewrite on_transcript_eq. cbv zeta.
    destruct (truthy _) eqn:Htext.
    + destruct (default false _); [|done]. cbn [fst].
      change (notify_calls (?a :: ?b :: ?l)) with (notify_calls l).
      apply transcript_loop_notify_calls.
    + destruct (str_strip _); [|done].
      rewrite extract_trigger_events_nil, elements_empty.
      by destruct (default false _).
Qed.

(** X9: an outbound call is attempted only for [shots_fired] on a text
    stream: the handler of a text stream creates the call task exactly when
    the payload was read and [shots_fired] is matched; the handler of the
    transcripts never creates one, and makes no request of its own. *)
Theorem call_attempted_iff_shots_fired (w : World) (reader : TextStreamReader)
    (identity : str) (transcript : UserInputTranscribed) :
  call_attempts (_handle_text_stream room w reader identity).1 =
    match reader_read_all reader with
    | Return text =>
        if bool_decide (shots_fired ∈ _extract_trigger_events text)
        then [dispatch_outbound_call text (Some room)] else []
    | Raise _ => []
    end ∧
  call_attempts (_on_transcript room transcript).1 = [] ∧
  http_posts (_on_transcript room transcript).1 = [] ∧
  sip_requests (_on_transcript room transcript).1 = [].
Proof.
  split.
  - destruct (reader_read_all reader) as [text|exc] eqn:Hread.
    + destruct (truthy text) eqn:Htext.
      * by apply text_stream_call_attempts.
      * destruct text; [|done].
        rewrite extract_trigger_events_nil.
        rewrite (bool_decide_eq_false_2 (shots_fired ∈ ∅))
          by apply not_elem_of_empty.
        by destruct (handle_text_stream_empty w reader identity Hread)
          as ([] & ? & ->).
    + by destruct (handle_text_stream_failed w reader identity exc Hread)
        as ([] & ? & ->).
  - rewrite on_transcript_eq. cbv zeta.
    destruct (truthy _); [|done].
    destruct (default false _); [|done]. cbn [fst].
    split; [|split].
    + change (call_attempts (?a :: ?b :: ?l)) with (call_attempts l).
      apply transcript_loop_call_attempts.
    + unfold http_posts. cbn [omap list_omap].
      induction (elements _) as [|x l IH]; [done|].
      by rewrite bind_cons, omap_app, IH.
    + unfold sip_requests. cbn [omap list_omap].
      induction (elements _) as [|x l IH]; [done|].
      by rewrite bind_cons, omap_app, IH.
Qed.

(** X10: only an outbound call task can end with an exception: the
    notification and the handler of a text stream return normally whatever
    the outside answers. *)
Theorem only_call_tasks_fail (w : World) (c : coro) :
  (run_coro room w c).2 = Return tt ∨
  ∃ transcript room', c = dispatch_outbound_call transcript room'.
Proof.
  destruct c as [event transcript room'|transcript room'|reader identity].
  - left. simpl.
    by destruct (send_event_to_chain_plain w event transcript room')
      as (tr & -> & _).
  - right. eauto.
  - left. apply handle_text_stream_returns.
Qed.
End handler_characterisation.

(** ** Whole cycles *)

Lemma send_http_posts (w : World) (event transcript room : str) :
  http_posts (_send_event_to_chain w event transcript room).1 =
  if truthy (EVENTS_API_BASE_URL w) then [event_post room w transcript event]
  else [].
Proof.
  rewrite send_event_to_chain_eq. destruct (truthy _); [|done]. cbv zeta.
  by destruct (post_event_sync w _ _) as [[status body]|exc];
    [destruct (status >=? 300)%Z|].
Qed.

Lemma bind_mret_trace {A} (m : M A) : (m;; mret tt).1 = m.1.
Proof.
  destruct m as [tr [a|e]]; [|done]. simpl. apply app_nil_r.
Qed.

Section cycles.
Context `{UnicodeData}.
Variable room : str.

Lemma leaf_creates_nothing (w : World) (c : coro) :
  (∀ reader identity, c ≠ handle_text_stream reader identity) →
  created_tasks (run_coro room w c).1 = [] ∧
  classifications (run_coro room w c).1 = [].
Proof.
  destruct c as [event transcript room'|transcript room'|reader identity];
    intros Hleaf.
  - simpl. destruct (send_event_to_chain_plain w event transcript room')
      as (tr & -> & Hplain).
    by apply plain_actions in Hplain as (_ & _ & ? & ? & _).
  - unfold run_coro. rewrite bind_mret_trace. apply dispatch_created_tasks.
  - by destruct (Hleaf reader identity).
Qed.

Lemma text_stream_tasks (w : World) (reader : TextStreamReader)
    (identity : str) :
  created_tasks (_handle_text_stream room w reader identity).1 =
  match reader_read_all reader with
  | Return text =>
      ((λ event, send_event_to_chain event text room) <$>
         filter (λ e, e ≠ shots_fired) (elements (_extract_trigger_events text))) ++
      (if bool_decide (shots_fired ∈ _extract_trigger_events text)
       then [dispatch_outbound_call text (Some room)] else [])
  | Raise _ => []
  end.
Proof.
  destruct (reader_read_all reader) as [text|exc] eqn:Hread.
  - destruct (truthy text) eqn:Htext.
    + destruct (handle_text_stream_shape room w reader identity text)
        as (lvl & fmt & args & notify & _ & Hplain & ->); [done..|].
      apply plain_actions in Hplain as (_ & _ & Htasks & _).
      rewrite !created_tasks_app, loop_created_tasks.
      case_bool_decide; [|done].
      by rewrite !created_tasks_app, Htasks.
    + destruct text; [|done].
      rewrite extract_trigger_events_nil, elements_empty.
      rewrite (bool_decide_eq_false_2 (shots_fired ∈ ∅))
        by apply not_elem_of_empty.
      by destruct (handle_text_stream_empty room w reader identity Hread)
        as ([] & ? & ->).
  - by destruct (handle_text_stream_failed room w reader identity exc Hread)
      as ([] & ? & ->).
Qed.

Lemma transcript_tasks (transcript : UserInputTranscribed) :
  created_tasks (_on_transcript room transcript).1 =
  if default false (ev_is_final transcript) then
    (λ event,
       send_event_to_chain event
         (str_strip (default [] (ev_transcript transcript))) room) <$>
      elements (_extract_trigger_events
                  (str_strip (default [] (ev_transcript transcript))))
  else [].
Proof.
  rewrite on_transcript_eq. cbv zeta.
  destruct (truthy _) eqn:Htext.
  - destruct (default false _); [|done]. cbn [fst].
    change (created_tasks (?a :: ?b :: ?l)) with (created_tasks l).
    induction (elements _) as [|x l IH]; [done|].
    by rewrite bind_cons, created_tasks_app, IH.
  - destruct (str_strip _); [|done].
    rewrite extract_trigger_events_nil, elements_empty.
    by destruct (default false _).
Qed.

Lemma transcript_http_posts (transcript : UserInputTranscribed) :
  http_posts (_on_transcript room transcript).1 = [].
Proof.
  rewrite on_transcript_eq. cbv zeta.
  destruct (truthy _); [|done].
  destruct (default false _); [|done]. cbn [fst].
  change (http_posts (?a :: ?b :: ?l)) with (http_posts l).
  induction (elements _) as [|x l IH]; [done|].
  by rewrite bind_cons, http_posts_app, IH.
Qed.

(** X11: the tasks that the handlers create are notifications and calls
    only; run to their end, in whatever outside, they create no task and
    classify nothing: the tasks of a cycle nest one level deep. *)
Theorem created_tasks_are_leaves (w w' : World) (reader : TextStreamReader)
    (identity : str) (transcript : UserInputTranscribed) :
  Forall (λ c, created_tasks (run_coro room w' c).1 = [] ∧
               classifications (run_coro room w' c).1 = [])
    (created_tasks (_handle_text_stream room w reader identity).1 ++
     created_tasks (_on_transcript room transcript).1).
Proof.
  rewrite text_stream_tasks, transcript_tasks. apply Forall_forall.
  intros c Hc. apply leaf_creates_nothing. intros reader' identity' ->.
  apply elem_of_app in Hc as [Hc|Hc].
  - destruct (reader_read_all reader) as [text|exc];
      [|by apply elem_of_nil in Hc].
    apply elem_of_app in Hc as [Hc|Hc].
    + by apply list_elem_of_fmap in Hc as (event & ? & _).
    + case_bool_decide; [|by apply elem_of_nil in Hc].
      by apply list_elem_of_singleton in Hc.
  - destruct (default false _); [|by apply elem_of_nil in Hc].
    by apply list_elem_of_fmap in Hc as (event & ? & _).
Qed.

Lemma posts_of_notifications (w : World) (text : str) (l : list str) :
  ((λ event, send_event_to_chain event text room) <$> l) ≫=
    (λ c, http_posts (run_coro room w c).1) =
  if truthy (EVENTS_API_BASE_URL w) then event_post room w text <$> l else [].
Proof.
  induction l as [|x l IH]; [by destruct (truthy _)|].
  rewrite fmap_cons, bind_cons, IH. cbn [run_coro]. rewrite send_http_posts.
  by destruct (truthy _).
Qed.

(** X12: a whole text-stream cycle, the handler and then the tasks it
    created, posts to the HTTP sink exactly one request for each matched
    event kind, with the payload as it was read (not lower-cased) and the
    room of the session; it posts nothing when the base URL is empty or the
    read failed. *)
Theorem text_stream_cycle_posts (w : World) (reader : TextStreamReader)
    (identity : str) :
  cycle_posts room w (_handle_text_stream room w reader identity).1 ≡ₚ
  match reader_read_all reader with
  | Return text =>
      if truthy (EVENTS_API_BASE_URL w)
      then event_post room w text <$> elements (_extract_trigger_events text)
      else []
  | Raise _ => []
  end.
Proof.
  unfold cycle_posts. rewrite text_stream_tasks.
  destruct (reader_read_all reader) as [text|exc] eqn:Hread.
  - rewrite bind_app, posts_of_notifications.
    assert ((if bool_decide (shots_fired ∈ _extract_trigger_events text)
             then [dispatch_outbound_call text (Some room)] else []) ≫=
              (λ c, http_posts (run_coro room w c).1) = []) as ->.
    { case_bool_decide; [|done]. rewrite bind_cons. cbn [run_coro].
      by rewrite bind_mret_trace, dispatch_http_posts. }
    rewrite app_nil_r.
    assert (http_posts (_handle_text_stream room w reader identity).1 =
            if bool_decide (shots_fired ∈ _extract_trigger_events text)
            then (if truthy (EVENTS_API_BASE_URL w)
                  then [event_post room w text shots_fired] else [])
            else []) as ->.
    { destruct (truthy text) eqn:Htext.
      - destruct (handle_text_stream_shape room w reader identity text)
          as (lvl & fmt & args & notify & Hsend & _ & ->); [done..|].
        rewrite !http_posts_app.
        destruct (loop_classifications room text
                    (elements (_extract_trigger_events text))) as (_ & -> & _).
        case_bool_decide; [|done].
        rewrite !http_posts_app. pose proof (send_http_posts w shots_fired text room)
          as Hposts. rewrite Hsend in Hposts. cbn [fst] in Hposts.
        rewrite Hposts. destruct (truthy (EVENTS_API_BASE_URL w)); reflexivity.
      - destruct text; [|done].
        rewrite extract_trigger_events_nil.
        rewrite (bool_decide_eq_false_2 (shots_fired ∈ ∅))
          by apply not_elem_of_empty.
        by destruct (handle_text_stream_empty room w reader identity Hread)
          as ([] & ? & ->). }
    destruct (truthy (EVENTS_API_BASE_URL w)); [|by case_bool_decide].
    rewrite <- (filter_out_perm shots_fired (elements (_extract_trigger_events text)))
      at 2 by apply NoDup_elements.
    rewrite fmap_app, Permutation_app_comm. f_equiv.
    assert (bool_decide (shots_fired ∈ elements (_extract_trigger_events text)) =
            bool_decide (shots_fired ∈ _extract_trigger_events text)) as ->
      by (apply bool_decide_ext, elem_of_elements).
    by case_bool_decide.
  - by destruct (handle_text_stream_failed room w reader identity exc Hread)
      as ([] & ? & ->).
Qed.

(** X13: a whole transcript cycle posts to the HTTP sink exactly one
    request for each event kind matched in a final transcript, with the
    stripped text and the room of the session; it posts nothing for an event
    that is not final or when the base URL is empty. *)
Theorem transcript_cycle_posts (w : World) (transcript : UserInputTranscribed) :
  cycle_posts room w (_on_transcript room transcript).1 =
  let text := str_strip (default [] (ev_transcript transcript)) in
  if default false (ev_is_final transcript) && truthy (EVENTS_API_BASE_URL w)
  then event_post room w text <$> elements (_extract_trigger_events text)
  else [].
Proof.
  cbv zeta. unfold cycle_posts. rewrite transcript_tasks, transcript_http_posts.
  destruct (default false _); [|done].
  rewrite posts_of_notifications. by destruct (truthy _).
Qed.

(** X14: when [shots_fired] is matched on a text stream, the handler itself
    awaits the notification before it creates the call task, so the request
    of that notification is the only one in the handler's own actions, and
    creating the call task is its last action. *)
Theorem shots_fired_notified_inline (w : World) (reader : TextStreamReader)
    (identity : str) :
  http_posts (_handle_text_stream room w reader identity).1 =
    match reader_read_all reader with
    | Return text =>
        if bool_decide (shots_fired ∈ _extract_trigger_events text) &&
           truthy (EVENTS_API_BASE_URL w)
        then [event_post room w text shots_fired] else []
    | Raise _ => []
    end ∧
  (∀ text,
     reader_read_all reader = Return text →
     shots_fired ∈ _extract_trigger_events text →
     ∃ before,
       (_handle_text_stream room w reader identity).1 =
         before ++ Await (send_event_to_chain shots_fired text room) ::
         (_send_event_to_chain w shots_fired text room).1 ++
         [CreateTask (dispatch_outbound_call text (Some room))] ∧
       http_posts before = [] ∧ call_attempts before = []).
Proof.
  split.
  - destruct (reader_read_all reader) as [text|exc] eqn:Hread.
    + destruct (truthy text) eqn:Htext.
      * destruct (handle_text_stream_shape room w reader identity text)
          as (lvl & fmt & args & notify & Hsend & _ & ->); [done..|].
        rewrite !http_posts_app.
        destruct (loop_classifications room text
                    (elements (_extract_trigger_events text))) as (_ & -> & _).
        case_bool_decide; [|done].
        rewrite !http_posts_app. pose proof (send_http_posts w shots_fired text room)
          as Hposts. rewrite Hsend in Hposts. cbn [fst] in Hposts.
        rewrite Hposts. destruct (truthy (EVENTS_API_BASE_URL w)); reflexivity.
      * destruct text; [|done].
        rewrite extract_trigger_events_nil.
        rewrite (bool_decide_eq_false_2 (shots_fired ∈ ∅))
          by apply not_elem_of_empty.
        by destruct (handle_text_stream_empty room w reader identity Hread)
          as ([] & ? & ->).
    + by destruct (handle_text_stream_failed room w reader identity exc Hread)
        as ([] & ? & ->).
  - intros text Hread Hshots.
    pose proof (truthy_of_match _ _ Hshots) as Htext.
    destruct (handle_text_stream_shape room w reader identity text)
      as (lvl & fmt & args & notify & Hsend & _ & ->); [done..|].
    rewrite Hsend, (bool_decide_eq_true_2 _ Hshots). cbn [fst].
    match goal with
    | |- ∃ before, ?p ++ ?l ++ [?x; ?y] ++ ?rest = _ ∧ _ =>
        exists (p ++ l ++ [x])
    end.
    split; [by rewrite <- !app_assoc|].
    rewrite !http_posts_app, !call_attempts_app, loop_call_attempts.
    by destruct (loop_classifications room text
                   (elements (_extract_trigger_events text))) as (_ & -> & _).
Qed.
End cycles.

(** ** The text of a transcript *)

Section strip.
Context `{UnicodeData}.

Lemma str_lstrip_spec (s : str) :
  ∃ pre, s = pre ++ str_lstrip s ∧
         Forall (λ c, IsWhitespace c = true) pre ∧
         (∀ c, head (str_lstrip s) = Some c → IsWhitespace c = false).
Proof.
  induction s as [|c s (pre & Hs & Hpre & Hhead)].
  - exists []. by repeat split.
  - simpl. destruct (IsWhitespace c) eqn:Hc.
    + exists (c :: pre). split; [by rewrite Hs at 1|]. split; [|done].
      by constructor.
    + exists []. split; [done|]. split; [constructor|].
      by intros ? [= <-].
Qed.

Lemma str_rstrip_spec (s : str) :
  ∃ post, s = str_rstrip s ++ post ∧
          Forall (λ c, IsWhitespace c = true) post ∧
          (∀ c, last (str_rstrip s) = Some c → IsWhitespace c = false).
Proof.
  destruct (str_lstrip_spec (reverse s)) as (pre & Hs & Hpre & Hhead).
  exists (reverse pre). unfold str_rstrip. split; [|split].
  - by rewrite <- reverse_app, <- Hs, reverse_involutive.
  - by apply Forall_reverse.
  - intros c. rewrite last_reverse. apply Hhead.
Qed.

Lemma str_strip_spec (s : str) :
  ∃ pre post,
    s = pre ++ str_strip s ++ post ∧
    Forall (λ c, IsWhitespace c = true) pre ∧
    Forall (λ c, IsWhitespace c = true) post ∧
    (∀ c, head (str_strip s) = Some c → IsWhitespace c = false) ∧
    (∀ c, last (str_strip s) = Some c → IsWhitespace c = false).
Proof.
  destruct (str_lstrip_spec s) as (pre & Hs & Hpre & Hhead).
  destruct (str_rstrip_spec (str_lstrip s)) as (post & Hl & Hpost & Hlast).
  exists pre, post. unfold str_strip. repeat split; try done.
  - by rewrite <- Hl.
  - intros c Hc. apply Hhead. rewrite Hl.
    by destruct (str_rstrip (str_lstrip s)).
Qed.
End strip.

(** X15: what [_on_transcript] logs, classifies and sends on is the
    transcript without the whitespace at its two ends: only whitespace is
    taken off, the text that remains neither starts nor ends with
    whitespace, and every task the handler creates is a notification
    carrying that text and a matched event kind. *)
Theorem transcript_text_stripped `{UnicodeData} (room : str)
    (transcript : UserInputTranscribed) :
  let raw := default [] (ev_transcript transcript) in
  let text := str_strip raw in
  (∃ pre post,
     raw = pre ++ text ++ post ∧
     Forall (λ c, IsWhitespace c = true) pre ∧
     Forall (λ c, IsWhitespace c = true) post ∧
     (∀ c, head text = Some c → IsWhitespace c = false) ∧
     (∀ c, last text = Some c → IsWhitespace c = false)) ∧
  Forall (λ c, ∃ event, c = send_event_to_chain event text room ∧
                        event ∈ _extract_trigger_events text)
    (created_tasks (_on_transcript room transcript).1).
Proof.
  cbv zeta. split; [apply str_strip_spec|].
  rewrite transcript_tasks. destruct (default false _); [|constructor].
  apply Forall_forall. intros c (event & -> & Hin)%list_elem_of_fmap.
  exists event. split; [done|]. by apply elem_of_elements.
Qed.

(** ** Invariants of the session *)

Lemma text_ids_of_leaves (cs : list coro) (start : nat) :
  forallb is_leaf cs = true →
  omap (λ tc : nat * coro,
          match tc.2 with
          | handle_text_stream _ _ => Some tc.1
          | _ => None
          end) (zip (seq start (length cs)) cs) = [].
Proof.
  revert start. induction cs as [|c cs IH]; intros start; [done|].
  simpl. intros [Hc Hcs]%andb_true_iff. rewrite IH by done. by destruct c.
Qed.

Lemma create_tasks_accounted (cs : list coro) (s : Session) :
  tasks_accounted s → tasks_accounted (create_tasks cs s).
Proof.
  unfold tasks_accounted. simpl. intros Hs.
  rewrite fmap_app, fst_zip by (by rewrite length_seq).
  rewrite seq_app, <- Hs. simpl.
  rewrite <- !app_assoc. f_equiv. apply Permutation_app_comm.
Qed.

Lemma create_leaves_text_ids (cs : list coro) (s : Session) :
  forallb is_leaf cs = true →
  text_task_ids (create_tasks cs s) = text_task_ids s.
Proof.
  intros Hcs. unfold text_task_ids. simpl.
  by rewrite omap_app, text_ids_of_leaves, app_nil_r.
Qed.

Lemma lookup_task_elem (task : nat) (s : Session) (c : coro) :
  lookup_task task s = Some c → (task, c) ∈ in_flight s.
Proof.
  unfold lookup_task. intros ([i [t c']] & Hfind & ->)%fmap_Some.
  apply list_find_Some in Hfind as (Hi & Ht & _). simpl in *. subst t.
  by eapply list_elem_of_lookup_2.
Qed.

Lemma filter_task_ids (task : nat) (c : coro) (l : list (nat * coro)) :
  NoDup l.*1 → (task, c) ∈ l →
  (filter (λ tc, tc.1 ≠ task) l).*1 ++ [task] ≡ₚ l.*1.
Proof.
  induction l as [|[t c'] l IH]; [by intros _ ?%elem_of_nil|].
  rewrite fmap_cons. intros [Ht Hl]%NoDup_cons Hin. simpl in *.
  apply elem_of_cons in Hin as [[= <- <-]|Hin].
  - rewrite filter_cons_False by (intros Hne; by apply Hne).
    assert (filter (λ tc : nat * coro, tc.1 ≠ task) l = l) as ->.
    { clear IH Hl. induction l as [|[t2 c2] l IH]; [done|].
      apply not_elem_of_cons in Ht as [Hne Ht]. simpl in *.
      rewrite filter_cons_True by (simpl; congruence). by rewrite IH. }
    symmetry. apply Permutation_cons_append.
  - assert (t ≠ task) as Hne.
    { intros ->. apply Ht. apply list_elem_of_fmap. by exists (task, c). }
    rewrite filter_cons_True by done. simpl. f_equiv. by apply IH.
Qed.

Lemma filter_text_ids (task : nat) (l : list (nat * coro)) :
  list_to_set
    (omap (λ tc : nat * coro,
             match tc.2 with
             | handle_text_stream _ _ => Some tc.1
             | _ => None
             end) (filter (λ tc, tc.1 ≠ task) l)) =
  (list_to_set
     (omap (λ tc : nat * coro,
              match tc.2 with
              | handle_text_stream _ _ => Some tc.1
              | _ => None
              end) l) : gset nat) ∖ {[task]}.
Proof.
  apply set_eq. intros x.
  rewrite elem_of_difference, !elem_of_list_to_set, !list_elem_of_omap,
    not_elem_of_singleton.
  split.
  - intros ([t c] & [Hne Hin]%list_elem_of_filter & Hsome). simpl in *.
    destruct c; try discriminate. injection Hsome as <-.
    split; [|done]. by eexists (t, _).
  - intros [([t c] & Hin & Hsome) Hne]. exists (t, c). split; [|done].
    apply list_elem_of_filter. split; [|done]. simpl in *.
    destruct c; try discriminate. by injection Hsome as <-.
Qed.

Lemma task_of_id (task : nat) (c1 c2 : coro) (l : list (nat * coro)) :
  NoDup l.*1 → (task, c1) ∈ l → (task, c2) ∈ l → c1 = c2.
Proof.
  induction l as [|[t c] l IH]; [by intros _ ?%elem_of_nil|].
  rewrite fmap_cons. intros [Ht Hl]%NoDup_cons. simpl in *.
  assert (∀ c', (t, c') ∉ l) as Hfresh.
  { intros c' Hin. apply Ht. apply list_elem_of_fmap. by exists (t, c'). }
  intros [[= -> ->]|Hin1]%elem_of_cons [[= ->]|Hin2]%elem_of_cons;
    try done; try (by destruct (Hfresh c2)); try (by destruct (Hfresh c1)).
  by apply IH.
Qed.

Lemma leaf_not_text_id (task : nat) (c : coro) (l : list (nat * coro)) :
  NoDup l.*1 → (task, c) ∈ l → is_leaf c = true →
  task ∉ (list_to_set
            (omap (λ tc : nat * coro,
                     match tc.2 with
                     | handle_text_stream _ _ => Some tc.1
                     | _ => None
                     end) l) : gset nat).
Proof.
  intros Hnodup Hin Hleaf.
  rewrite elem_of_list_to_set, list_elem_of_omap.
  intros ([t c'] & Hin' & Hsome). simpl in *.
  destruct c' as [| |reader identity]; try discriminate. injection Hsome as ->.
  assert (c = handle_text_stream reader identity) as ->; [|done].
  by apply (task_of_id task _ _ l).
Qed.

Section session_invariants.
Context `{UnicodeData}.
Variable room : str.

Lemma created_by_coro_are_leaves (w : World) (c : coro) :
  forallb is_leaf (created_tasks (run_coro room w c).1) = true.
Proof.
  destruct c as [event transcript room'|transcript room'|reader identity].
  - by destruct (leaf_creates_nothing room w
                   (send_event_to_chain event transcript room')) as [-> _].
  - by destruct (leaf_creates_nothing room w
                   (dispatch_outbound_call transcript room')) as [-> _].
  - cbn [run_coro]. rewrite text_stream_tasks.
    destruct (reader_read_all reader) as [text|exc]; [|done].
    rewrite forallb_app. apply andb_true_iff. split.
    + induction (filter _ _) as [|x l IH]; done.
    + by case_bool_decide.
Qed.

Lemma created_by_transcript_are_leaves (transcript : UserInputTranscribed) :
  forallb is_leaf (created_tasks (_on_transcript room transcript).1) = true.
Proof.
  rewrite transcript_tasks. destruct (default false _); [|done].
  induction (elements _) as [|x l IH]; done.
Qed.

Lemma step_invariant (s : Session) (e : event) :
  tasks_accounted s ∧ active_text_tasks s = text_task_ids s →
  tasks_accounted (step room s e) ∧
  active_text_tasks (step room s e) = text_task_ids (step room s e).
Proof.
  intros [Hacc Hactive].
  destruct e as [reader identity|transcript| |task w|]; try done.
  - split.
    + by apply (create_tasks_accounted [handle_text_stream reader identity]).
    + unfold step, _register_text_stream, text_task_ids. simpl.
      rewrite omap_app, list_to_set_app_L, Hactive. simpl.
      unfold text_task_ids. by rewrite (right_id_L ∅ (∪)).
  - unfold step. destruct (_on_transcript room transcript) as [tr r] eqn:Hrun.
    split; [by apply create_tasks_accounted|].
    rewrite create_leaves_text_ids; [done|].
    pose proof (created_by_transcript_are_leaves transcript) as Hleaves.
    by rewrite Hrun in Hleaves.
  - unfold step, task_runs.
    destruct (lookup_task task s) as [c|] eqn:Hlookup; [|done].
    apply lookup_task_elem in Hlookup.
    destruct (run_coro room w c) as [tr r] eqn:Hrun.
    assert (NoDup (in_flight s).*1) as Hnodup.
    { assert (NoDup ((in_flight s).*1 ++ (finished s).*1)) as Hboth
        by (unfold tasks_accounted in Hacc; rewrite Hacc; apply NoDup_seq).
      by apply NoDup_app in Hboth as [? _]. }
    split.
    + apply create_tasks_accounted. unfold tasks_accounted in *. simpl.
      rewrite fmap_app. simpl. rewrite <- Hacc.
      rewrite <- (filter_task_ids task c (in_flight s)) by done.
      rewrite <- !app_assoc. f_equiv. apply Permutation_app_comm.
    + rewrite create_leaves_text_ids.
      2:{ pose proof (created_by_coro_are_leaves w c) as Hleaves.
          by rewrite Hrun in Hleaves. }
      unfold text_task_ids at 1. simpl. rewrite filter_text_ids.
      fold (text_task_ids s).
      destruct c as [event transcript room'|transcript room'|reader identity];
        rewrite Hactive; try done.
      * pose proof (leaf_not_text_id task _ _ Hnodup Hlookup eq_refl) as Hnot.
        fold (text_task_ids s) in Hnot. symmetry.
        by apply difference_disjoint_L, disjoint_singleton_r.
      * pose proof (leaf_not_text_id task _ _ Hnodup Hlookup eq_refl) as Hnot.
        fold (text_task_ids s) in Hnot. symmetry.
        by apply difference_disjoint_L, disjoint_singleton_r.
Qed.

Lemma run_invariant (es : list event) :
  tasks_accounted (run room es) ∧
  active_text_tasks (run room es) = text_task_ids (run room es).
Proof.
  unfold run. induction es as [|e es IH] using rev_ind.
  { split; [by unfold tasks_accounted | done]. }
  rewrite foldl_snoc. by apply step_invariant.
Qed.


(** X17: the set [active_text_tasks] is kept in step with the loop:
    whatever happens, it holds exactly the text-stream tasks that are in
    flight; the done-callback takes a task out when it ends, also when
    reading the payload failed. *)
Theorem active_text_tasks_in_flight (es : list event) :
  active_text_tasks (run room es) = text_task_ids (run room es).
Proof. apply run_invariant. Qed.

Lemma step_flags (s : Session) (e : event) :
  (disconnected (step room s e) = true ↔
   disconnected s = true ∨ e = Disconnected) ∧
  (returned (step room s e) = true ↔
   returned s = true ∨ (e = EntrypointResumes ∧ disconnected s = true)).
Proof.
  assert (∀ s' : Session,
            disconnected s' = disconnected s → returned s' = returned s →
            e ≠ Disconnected → e ≠ EntrypointResumes →
            (disconnected s' = true ↔ disconnected s = true ∨ e = Disconnected) ∧
            (returned s' = true ↔
             returned s = true ∨ (e = EntrypointResumes ∧ disconnected s = true)))
    as Hsame.
  { intros s' -> -> Hd Hr. split.
    - split; [by left|]. by intros [?|?].
    - split; [by left|]. by intros [?|[? _]]. }
  destruct e as [reader identity|transcript| |task w|].
  - by apply Hsame.
  - unfold step. destruct (_on_transcript room transcript) as [tr r].
    by apply Hsame.
  - split.
    + split; [by right|done].
    + split; [by left|]. by intros [?|[? _]].
  - unfold step, task_runs. destruct (lookup_task task s) as [c|].
    + destruct (run_coro room w c) as [tr r]. by apply Hsame.
    + by apply Hsame.
  - split.
    + split; [by left|]. by intros [?|?].
    + simpl. rewrite orb_true_iff. split.
      * intros [?|?]; [by left | by right].
      * intros [?|[_ ?]]; [by left | by right].
Qed.

Lemma foldl_disconnected (s : Session) (es : list event) :
  disconnected (foldl (step room) s es) = true ↔
  disconnected s = true ∨ Disconnected ∈ es.
Proof.
  revert s. induction es as [|e es IH]; intros s; simpl.
  - split; [by left|]. by intros [?|?%elem_of_nil].
  - rewrite IH, elem_of_cons.
    destruct (step_flags s e) as [-> _]. split.
    + intros [[?|Heq]|?]; [by left | right; by left | right; by right].
    + intros [?|[Heq|?]]; [left; by left | left; by right | by right].
Qed.

Lemma foldl_returned (s : Session) (es : list event) :
  returned (foldl (step room) s es) = true ↔
  returned s = true ∨
  ∃ es1 es2, es = es1 ++ EntrypointResumes :: es2 ∧
             disconnected (foldl (step room) s es1) = true.
Proof.
  revert s. induction es as [|e es IH]; intros s; simpl.
  - split; [by left|]. intros [?|(es1 & es2 & Heq & _)]; [done|].
    by destruct es1.
  - rewrite IH. destruct (step_flags s e) as [_ ->]. split.
    + intros [[?|[-> Hdis]]|(es1 & es2 & -> & Hdis)].
      * by left.
      * right. by exists [], es.
      * right. by exists (e :: es1), es2.
    + intros [?|(es1 & es2 & Heq & Hdis)]; [by left; left|].
      destruct es1 as [|e1 es1]; simpl in Heq, Hdis; injection Heq as -> ->.
      * left. by right.
      * right. by exists es1, es2.
Qed.

(** X18: [entrypoint] returns only after the disconnect signal, and at the
    first time it is resumed after it: it has returned exactly when the
    room has emitted [disconnected] and the loop has resumed [entrypoint]
    since. *)
Theorem entrypoint_returns_after_disconnect (es : list event) :
  returned (run room es) = true ↔
  ∃ es1 es2 es3, es = es1 ++ Disconnected :: es2 ++ EntrypointResumes :: es3.
Proof.
  unfold run. rewrite foldl_returned. split.
  - intros [?|(es1 & es2 & -> & Hdis)]; [done|].
    apply foldl_disconnected in Hdis as [?|Hin]; [done|].
    apply list_elem_of_split in Hin as (l1 & l2 & ->).
    exists l1, l2, es2. by rewrite <- app_assoc.
  - intros (es1 & es2 & es3 & ->). right.
    exists (es1 ++ Disconnected :: es2), es3. split.
    + by rewrite <- app_assoc.
    + apply foldl_disconnected. right.
      apply elem_of_app. right. apply elem_of_cons. by left.
Qed.
End session_invariants.

(** ** Letter case *)

Section letter_case.
Context `{UnicodeData}.

Lemma same_letter_sym (x y : N) : same_letter x y → same_letter y x.
Proof. unfold same_letter. intros [->|[?|?]]; [by left | right; by right | right; by left]. Qed.

Lemma lower_upper (x : N) (before after : str) :
  lowers_basic_latin → is_upper x = true →
  lower_ucs4 before after x = [(x + 32)%N] ∧
  lower_ucs4 before after (x + 32)%N = [(x + 32)%N].
Proof.
  unfold is_upper. intros Hlatin Hx%bool_decide_eq_true. unfold lower_ucs4.
  destruct (N.eqb_spec x 0x3A3) as [->|_]; [lia|].
  destruct (N.eqb_spec (x + 32) 0x3A3) as [Heq|_]; [lia|].
  rewrite !Hlatin by lia. unfold basic_latin_lower.
  rewrite bool_decide_eq_true_2 by done.
  by rewrite bool_decide_eq_false_2 by lia.
Qed.

Lemma lower_ucs4_same_letter (x y : N) (before after before' after' : str) :
  lowers_basic_latin → same_letter x y →
  Forall2 sigma_variant (lower_ucs4 before after x) (lower_ucs4 before' after' y).
Proof.
  intros Hlatin [->|[[Hx ->]|[Hy ->]]].
  - apply lower_ucs4_variant.
  - destruct (lower_upper x before after Hlatin Hx) as [-> _].
    destruct (lower_upper x before' after' Hlatin Hx) as [_ ->].
    apply sigma_variant_refl.
  - destruct (lower_upper y before after Hlatin Hy) as [_ ->].
    destruct (lower_upper y before' after' Hlatin Hy) as [-> _].
    apply sigma_variant_refl.
Qed.

Lemma do_lower_same_letter (s1 s2 : str) :
  lowers_basic_latin → Forall2 same_letter s1 s2 →
  ∀ before before', Forall2 sigma_variant (do_lower before s1) (do_lower before' s2).
Proof.
  intros Hlatin.
  induction 1 as [|x y s1 s2 Hxy Hs IH]; intros before before'; [constructor|].
  simpl. apply Forall2_app; [by apply lower_ucs4_same_letter | apply IH].
Qed.

(** X19: classification does not depend on the case of the Basic Latin
    letters of the text: two texts that differ only in the case of such
    letters give the same event kinds, with any database that lower-cases
    Basic Latin as Unicode does. *)
Theorem classification_ignores_case (s1 s2 : str) :
  lowers_basic_latin → Forall2 same_letter s1 s2 →
  _extract_trigger_events s1 = _extract_trigger_events s2.
Proof.
  intros Hlatin Hsame. apply set_eq. intros event.
  rewrite !extract_trigger_events_elem.
  split; intros (phrase & Hin & Hocc); exists phrase; (split; [done|]).
  - eapply occurs_in_variant; [by eapply trigger_phrases_plain | | done].
    by apply do_lower_same_letter.
  - eapply occurs_in_variant; [by eapply trigger_phrases_plain | | done].
    apply do_lower_same_letter; [done|]. apply Forall2_flip.
    eapply Forall2_impl; [done|]. intros x y. apply same_letter_sym.
Qed.
End letter_case.

(** X19 on a text: capitals change nothing. *)
Lemma classification_ignores_case_witness :
  @_extract_trigger_events basic_latin (py "SHOTS Fired, Man DOWN") =
  @_extract_trigger_events basic_latin (py "shots fired, man down").
Proof.
  apply (@classification_ignores_case basic_latin).
  - intros c _. reflexivity.
  - apply (bool_decide_unpack _). vm_compute. exact I.
Defined.

(** X20: whatever the text, the result holds event kinds of the table
    only, hence at most six, and a cycle starts at most six
    notifications. *)
Theorem extract_trigger_events_range `{UnicodeData} (text : str) :
  _extract_trigger_events text ⊆ event_kinds ∧
  size (_extract_trigger_events text) ≤ 6.
Proof.
  assert (_extract_trigger_events text ⊆ event_kinds) as Hsub.
  { intros event (phrase & Hin & _)%extract_trigger_events_elem.
    apply elem_of_list_to_set, list_elem_of_fmap. by exists (phrase, event). }
  split; [done|]. apply subseteq_size in Hsub.
  assert (size event_kinds = 6) as Hsix by (by vm_compute). lia.
Qed.

(** X3 on a run: the LiveKit API refuses the request, and the client is
    closed all the same. *)
Lemma dispatch_closes_api_witness :
  ∃ request tail,
    (_dispatch_outbound_call (refusing_sip (Exn "TwirpError" "unavailable"))
       (py "shots fired") (Some (py "room"))).1 =
      [NewLiveKitAPI; CreateSipParticipant request; CloseLiveKitAPI] ++ tail ∧
    forallb is_log tail = true.
Proof.
  destruct (dispatch_closes_api (refusing_sip (Exn "TwirpError" "unavailable"))
              (py "shots fired") (Some (py "room"))) as [Hclosed _].
  apply Hclosed; reflexivity.
Defined.

(** X4 on a run: the exception of the refused request comes out of the call
    coroutine. *)
Lemma dispatch_outcome_witness :
  (_dispatch_outbound_call (refusing_sip (Exn "TwirpError" "unavailable"))
     (py "shots fired") (Some (py "room"))).2 =
  Raise (Exn "TwirpError" "unavailable").
Proof.
  destruct (dispatch_outcome (refusing_sip (Exn "TwirpError" "unavailable"))
              (py "shots fired") (Some (py "room"))) as (_ & _ & _ & Hraise).
  apply (Hraise (py "ST_trunk")); reflexivity.
Defined.

(** X14 on the example of the specification: the handler posts the
    notification of [shots_fired] itself, then creates the call task. *)
Lemma shots_fired_notified_inline_witness :
  ∃ before,
    (@_handle_text_stream basic_latin (py "room") quiet_world
       (sample_reader (Return shots_text)) (py "camera")).1 =
      before ++ Await (send_event_to_chain shots_fired shots_text (py "room")) ::
      (_send_event_to_chain quiet_world shots_fired shots_text (py "room")).1 ++
      [CreateTask (dispatch_outbound_call shots_text (Some (py "room")))] ∧
    http_posts before = [] ∧ call_attempts before = [].
Proof.
  destruct (@shots_fired_notified_inline basic_latin (py "room") quiet_world
              (sample_reader (Return shots_text)) (py "camera")) as [_ Hinline].
  apply Hinline.
  - reflexivity.
  - apply (bool_decide_unpack _). vm_compute. exact I.
Defined.
